(** * The tagging service (flask-mongo-app/app.py)

    A shallow embedding of the seven request handlers of [app.py] and of
    the three MongoDB collections they work on ([items], [tags] and
    [item_tags]), followed by the properties of the association end
    points.

    Handlers are written in a small state-and-exception monad over the
    state of the storage layer.  What the application does not define
    itself is taken as a parameter of the development: the
    [bson.ObjectId] constructor, [str], the identifiers that are
    generated for new documents, and the documents that the driver or the
    server refuses to insert. *)

From Stdlib Require Import ZArith NArith String Ascii List.
From stdpp Require Import base tactics option list gmap strings pretty.

Local Open Scope string_scope.
Local Open Scope nat_scope.
Local Open Scope list_scope.
Set Warnings "-register-all".

(** ** Calls, exceptions and results *)

(** The two collections of payload documents; [item_tags] has operations
    of its own. *)
Inductive collection := Items | Tags.

(** Calls made to the storage layer, in the order they were made. *)
Inductive access :=
| InsertOne (c : collection)
| Find (c : collection)
| FindOne (c : collection)
| FindOneItemTags
| UpdateOneItemTags.

(** Exceptions that leave a handler uncaught: those of Python, and those
    of the driver ([bson.errors.InvalidDocument],
    [pymongo.errors.DuplicateKeyError], [pymongo.errors.WriteError]). *)
Inductive exn :=
| AttributeError
| TypeError
| OverflowError
| InvalidDocument
| DuplicateKeyError
| WriteError.

Inductive result (A : Type) :=
| Ok (a : A)
| Raise (e : exn).
Arguments Ok {A} a.
Arguments Raise {A} e.

(** ** Python and BSON values *)

Section App.
Context {ObjectId : Type} `{Countable ObjectId}.

(** The values a handler sees: what [request.get_json()] returns
    ([VNone] when it returns [None], as it does for the body [null]), and
    the documents the driver gives back, in which generated identifiers
    are [ObjectId]s.  A float is kept as a decimal mantissa and exponent;
    only its zero test is ever observed. *)
Inductive value : Type :=
| VNone
| VBool (b : bool)
| VInt (n : Z)
| VFloat (m e : Z)
| VStr (s : string)
| VList (l : list value)
| VDict (d : list (string * value))
| VOid (o : ObjectId).

(** Python truth value, the test behind [if not data]. *)
Definition truthy (v : value) : bool :=
  match v with
  | VNone => false
  | VBool b => b
  | VInt n => negb (n =? 0)%Z
  | VFloat m _ => negb (m =? 0)%Z
  | VStr s => match s with EmptyString => false | String _ _ => true end
  | VList l => match l with [] => false | _ :: _ => true end
  | VDict d => match d with [] => false | _ :: _ => true end
  | VOid _ => true
  end.

(** [d.get(key, default)] on the fields of a dict. *)
Fixpoint dict_get (d : list (string * value)) (key : string) (default : value)
  : value :=
  match d with
  | [] => default
  | (k, v) :: d' => if String.eqb k key then v else dict_get d' key default
  end.

(** The field of a mapping, if it has it. *)
Fixpoint field_of (d : list (string * value)) (key : string) : option value :=
  match d with
  | [] => None
  | (k, v) :: d' => if String.eqb k key then Some v else field_of d' key
  end.

(** The fields of a mapping other than [key]. *)
Definition without (key : string) (d : list (string * value))
  : list (string * value) :=
  filter (fun kv => fst kv ≠ key) d.

(** A response: the value given to [jsonify] and the status code. *)
Definition response : Type := value * nat.

Definition error_body (msg : string) : value := VDict [("error", VStr msg)].

(** ** The storage layer *)

(** A stored item or tag: its [_id], which is the [ObjectId] generated
    for it or the [_id] its payload came with, and the other fields of
    the payload it was created from. *)
Record document := Doc {
  doc_id : value;
  doc_fields : list (string * value)
}.

(** The [_id] of a document when it is an [ObjectId]; a query by
    [ObjectId] finds no other document. *)
Definition doc_oid (d : document) : option ObjectId :=
  match doc_id d with
  | VOid o => Some o
  | _ => None
  end.

(** A record of [item_tags].  Such records are written by the upsert of
    [create_item_tag_association] only, which gives them this shape. *)
Record item_tag := ItemTag {
  it_id : ObjectId;
  item_id : ObjectId;
  tag_ids : list ObjectId
}.

(** [mongo.db]: the three collections, each in storage order. *)
Record Db := mkDb {
  items : list document;
  tags : list document;
  item_tags : list item_tag
}.

(** The storage layer: the database, how many identifiers have been
    generated so far, and the calls the server received. *)
Record world := mkWorld {
  db : Db;
  generated : nat;
  journal : list access
}.

Definition empty_db : Db := mkDb [] [] [].
Definition init : world := mkWorld empty_db 0 [].

(** *** The monad of handlers *)

Definition M (A : Type) : Type := world → result A * world.

Definition ret {A} (a : A) : M A := fun w => (Ok a, w).
Definition raise {A} (e : exn) : M A := fun w => (Raise e, w).
Definition bind {A B} (m : M A) (k : A → M B) : M B :=
  fun w =>
    match m w with
    | (Ok a, w') => k a w'
    | (Raise e, w') => (Raise e, w')
    end.

Notation "'let!' x ':=' m 'in' k" := (bind m (fun x => k))
  (at level 10, x name, m at level 100, k at level 200,
   format "'[v' 'let!'  x  ':='  m  'in' '/' k ']'").

(** *** What the libraries provide *)

(** [ObjectId(x)]: the identifier a value is read as, [None] when the
    constructor raises (the handlers catch every exception it can
    raise).  It is taken as a function of its argument. *)
Variable ObjectId_of : value → option ObjectId.

(** [str(x)]. *)
Variable str : value → string.

(** [ObjectId()]: the [n]-th identifier that is generated. *)
Variable new_ObjectId : nat → ObjectId.

(** The exception with which the driver refuses to encode a document, if
    it does: [OverflowError] for an integer beyond 8 bytes, for one. *)
Variable bson_error : document → option exn.

(** The exception with which the server refuses to insert a document into
    a collection with the given documents, if it does:
    [DuplicateKeyError] for an [_id] that is stored already, for one. *)
Variable write_error : list document → document → option exn.

(** *** Operations on a collection *)

Definition docs (c : collection) (d : Db) : list document :=
  match c with Items => items d | Tags => tags d end.

Definition set_docs (c : collection) (l : list document) (d : Db) : Db :=
  match c with
  | Items => mkDb l (tags d) (item_tags d)
  | Tags => mkDb (items d) l (item_tags d)
  end.

(** The journal after one more call, and the world after a call that
    only reads. *)
Definition logged (a : access) (w : world) : list access := journal w ++ [a].

Definition noted (a : access) (w : world) : world :=
  mkWorld (db w) (generated w) (logged a w).

(** The document the driver makes of a mapping: a mapping that has no
    [_id] is given the identifier [fresh], one that has an [_id] keeps
    it. *)
Definition document_of (fields : list (string * value)) (fresh : ObjectId)
  : document :=
  match field_of fields "_id" with
  | Some id => Doc id (without "_id" fields)
  | None => Doc (VOid fresh) fields
  end.

(** The number of identifiers generated once the driver has made a
    document of a mapping. *)
Definition generated_for (fields : list (string * value)) (n : nat) : nat :=
  match field_of fields "_id" with
  | Some _ => n
  | None => S n
  end.

(** [insert_one(data)]: the driver refuses what is not a mapping, makes a
    document of a mapping and encodes it, and only then calls the server,
    which stores the document unless it refuses it.  The [_id] of the
    stored document is returned ([inserted_id]). *)
Definition insert_one (c : collection) (data : value) : M value :=
  fun w =>
    match data with
    | VDict fields =>
        let doc := document_of fields (new_ObjectId (generated w)) in
        let n := generated_for fields (generated w) in
        match bson_error doc with
        | Some e => (Raise e, mkWorld (db w) n (journal w))
        | None =>
            match write_error (docs c (db w)) doc with
            | Some e => (Raise e, mkWorld (db w) n (logged (InsertOne c) w))
            | None =>
                (Ok (doc_id doc),
                 mkWorld (set_docs c (docs c (db w) ++ [doc]) (db w)) n
                         (logged (InsertOne c) w))
            end
        end
    | _ => (Raise TypeError, w)
    end.

(** [find()]: every document, in storage order. *)
Definition find (c : collection) : M (list document) :=
  fun w => (Ok (docs c (db w)), noted (Find c) w).

(** [find({"_id": {"$in": ids}})]. *)
Definition find_in (c : collection) (ids : list ObjectId) : M (list document) :=
  fun w =>
    (Ok (filter (fun d => doc_oid d ∈ Some <$> ids) (docs c (db w))),
     noted (Find c) w).

(** [find_one({"_id": oid})]: the first document with this identifier. *)
Definition find_one (c : collection) (oid : ObjectId) : M (option document) :=
  fun w =>
    (Ok (head (filter (fun d => doc_oid d = Some oid) (docs c (db w)))),
     noted (FindOne c) w).

(** *** Operations on [item_tags] *)

Definition lookup_item_tags (oid : ObjectId) (l : list item_tag) : option item_tag :=
  head (filter (fun r => item_id r = oid) l).

(** [item_tags.find_one({"item_id": oid})]. *)
Definition find_one_item_tags (oid : ObjectId) : M (option item_tag) :=
  fun w =>
    (Ok (lookup_item_tags oid (item_tags (db w))), noted FindOneItemTags w).

(** [$addToSet] with [$each]: every element that the array does not hold
    yet is appended to it, in the order given. *)
Definition add_to_set (l new : list ObjectId) : list ObjectId :=
  fold_left (fun acc x => if decide (x ∈ acc) then acc else acc ++ [x]) new l.

(** The update applied to the first record of the item, if there is one. *)
Fixpoint update_first (oid : ObjectId) (new : list ObjectId) (l : list item_tag)
  : option (list item_tag) :=
  match l with
  | [] => None
  | r :: l' =>
      if decide (item_id r = oid)
      then Some (ItemTag (it_id r) (item_id r) (add_to_set (tag_ids r) new) :: l')
      else cons r <$> update_first oid new l'
  end.

(** [item_tags.update_one({"item_id": oid},
      {"$addToSet": {"tag_ids": {"$each": new}}}, upsert=True)]:
    without a record of the item, one is inserted that holds the item
    identifier and the array [$addToSet] builds from nothing. *)
Definition update_one_item_tags (oid : ObjectId) (new : list ObjectId) : M unit :=
  fun w =>
    match update_first oid new (item_tags (db w)) with
    | Some l =>
        (Ok tt,
         mkWorld (mkDb (items (db w)) (tags (db w)) l)
                 (generated w)
                 (logged UpdateOneItemTags w))
    | None =>
        let r := ItemTag (new_ObjectId (generated w)) oid (add_to_set [] new) in
        (Ok tt,
         mkWorld (mkDb (items (db w)) (tags (db w)) (item_tags (db w) ++ [r]))
                 (S (generated w))
                 (logged UpdateOneItemTags w))
    end.

(** ** The handlers *)

(** A document as the driver returns it. *)
Definition doc_dict (d : document) : value :=
  VDict (("_id", doc_id d) :: doc_fields d).

(** The same after [doc["_id"] = str(doc["_id"])]. *)
Definition externalized (d : document) : value :=
  VDict (("_id", VStr (str (doc_id d))) :: doc_fields d).

(** [GET /] *)
Definition home : M response :=
  ret (VDict [("message", VStr "Flask + MongoDB + Swagger is working!")], 200).

(** [POST /items] *)
Definition create_item (data : value) : M response :=
  if negb (truthy data) then ret (error_body "No data provided", 400)
  else
    let! inserted := insert_one Items data in
    ret (VDict [("inserted_id", VStr (str inserted))], 201).

(** [GET /items] *)
Definition list_items : M response :=
  let! items := find Items in
  ret (VList (externalized <$> items), 200).

(** [POST /tags] *)
Definition create_tag (data : value) : M response :=
  if negb (truthy data) then ret (error_body "No data provided", 400)
  else
    let! inserted := insert_one Tags data in
    ret (VDict [("inserted_id", VStr (str inserted))], 200).

(** [GET /tags] *)
Definition list_tags : M response :=
  let! tags := find Tags in
  ret (VList (doc_dict <$> tags), 200).

(** [data.get(key, default)]: only a dict has the method. *)
Definition get (data : value) (key : string) (default : value) : M value :=
  match data with
  | VDict d => ret (dict_get d key default)
  | _ => raise AttributeError
  end.

(** [isinstance(v, list)] *)
Definition isinstance_list (v : value) : bool :=
  match v with VList _ => true | _ => false end.

(** The elements a comprehension over [tag_ids] goes through (the
    handler has made sure that it is a list). *)
Definition elements (tag_ids : value) : list value :=
  match tag_ids with VList l => l | _ => [] end.

(** The [try] block: [ObjectId(item_id)], then [ObjectId(tag_id)] for
    every entry; [None] when one of them raises. *)
Definition parse_ids (item_id : string) (tag_ids : list value)
  : option (ObjectId * list ObjectId) :=
  match ObjectId_of (VStr item_id) with
  | None => None
  | Some item_oid =>
      match mapM ObjectId_of tag_ids with
      | None => None
      | Some tag_oids => Some (item_oid, tag_oids)
      end
  end.

(** [set(doc["_id"] for doc in found)], of documents found by
    [ObjectId]. *)
Definition id_set (found : list document) : gset ObjectId :=
  list_to_set (omap doc_oid found).

(** [POST /items/<item_id>/tags] *)
Definition create_item_tag_association (item_id : string) (data : value)
  : M response :=
  let! tag_ids := get data "tag_ids" (VList []) in
  if negb (isinstance_list tag_ids) || negb (truthy tag_ids)
  then ret (error_body "tag_ids must be a non-empty list", 400)
  else
    match parse_ids item_id (elements tag_ids) with
    | None => ret (error_body "Invalid ObjectId in item_id or tag_ids", 400)
    | Some (item_oid, tag_oids) =>
        let! item := find_one Items item_oid in
        if negb (bool_decide (is_Some item))
        then ret (error_body "Item not found..", 404)
        else
          let! found := find_in Tags tag_oids in
          let existing_tags := id_set found in
          if negb (Nat.eqb (size existing_tags) (length tag_oids))
          then ret (error_body "One or more tag_ids not found", 404)
          else
            let! _ := update_one_item_tags item_oid tag_oids in
            ret (VDict [("message", VStr "Tags associated with item");
                        ("item_id", VStr item_id);
                        ("tag_ids",
                         VList ((fun tid => VStr (str (VOid tid))) <$> tag_oids))],
                 200)
    end.

(** [GET /items/<item_id>/tags] *)
Definition get_tags_for_item (item_id : string) : M response :=
  match ObjectId_of (VStr item_id) with
  | None => ret (error_body "Invalid item_id", 400)
  | Some item_oid =>
      let! tag_map := find_one_item_tags item_oid in
      match tag_map with
      | None => ret (VList [], 200)
      | Some r =>
          match tag_ids r with
          | [] => ret (VList [], 200)
          | _ :: _ =>
              let! tags := find_in Tags (tag_ids r) in
              ret (VList (externalized <$> tags), 200)
          end
      end
  end.

(** ** Requests and runs of the service *)

Inductive request :=
| GET_root
| POST_items (data : value)
| GET_items
| POST_tags (data : value)
| GET_tags
| POST_item_tags (item_id : string) (data : value)
| GET_item_tags (item_id : string).

Definition handle (q : request) : M response :=
  match q with
  | GET_root => home
  | POST_items data => create_item data
  | GET_items => list_items
  | POST_tags data => create_tag data
  | GET_tags => list_tags
  | POST_item_tags item_id data => create_item_tag_association item_id data
  | GET_item_tags item_id => get_tags_for_item item_id
  end.

(** The state the storage layer is left in by a sequence of requests.  A
    request whose handler raises is answered with an error page; the
    state stays as the handler left it. *)
Definition run (qs : list request) (w : world) : world :=
  fold_left (fun w q => snd (handle q w)) qs w.

(** ** The vocabulary of the specification *)

(** The error responses, by the names the specification gives them. *)
Definition EmptyPayload : response := (error_body "No data provided", 400).
Definition InvalidInput : response :=
  (error_body "tag_ids must be a non-empty list", 400).
Definition InvalidIdentifier : response :=
  (error_body "Invalid ObjectId in item_id or tag_ids", 400).
Definition InvalidItemId : response := (error_body "Invalid item_id", 400).
Definition ItemNotFound : response := (error_body "Item not found..", 404).
Definition TagsNotFound : response :=
  (error_body "One or more tag_ids not found", 404).

(** The answer of a successful [associate]. *)
Definition Associated (item_id : string) (tag_oids : list ObjectId) : response :=
  (VDict [("message", VStr "Tags associated with item");
          ("item_id", VStr item_id);
          ("tag_ids", VList ((fun tid => VStr (str (VOid tid))) <$> tag_oids))],
   200).



Definition is_sequence (v : value) : Prop := ∃ l, v = VList l.

(** [tag_ids] is missing, is not a sequence, or is an empty sequence. *)
Definition bad_tag_ids (d : list (string * value)) : Prop :=
  field_of d "tag_ids" = None
  ∨ (∃ v, field_of d "tag_ids" = Some v ∧ ¬ is_sequence v)
  ∨ field_of d "tag_ids" = Some (VList []).

(** The entries of [tag_ids]. *)
Definition entries (d : list (string * value)) : list value :=
  elements (dict_get d "tag_ids" (VList [])).

(** The two places an identifier is read from. *)
Inductive id_field := item_id_field | tag_ids_field.

Definition unparsable (f : id_field) (item_id : string)
  (d : list (string * value)) : Prop :=
  match f with
  | item_id_field => ObjectId_of (VStr item_id) = None
  | tag_ids_field => ∃ v, v ∈ entries d ∧ ObjectId_of v = None
  end.

Definition bad_identifier (item_id : string) (d : list (string * value)) : Prop :=
  ∃ f, unparsable f item_id d.

(** An error answer tells which field failed to parse: some reading of
    the answer names, for every request refused for its identifiers, a
    field that does not parse. *)
Definition reports_failed_field (report : response → id_field) : Prop :=
  ∀ (w : world) item_id d r,
    fst (create_item_tag_association item_id (VDict d) w) = Ok r →
    ¬ bad_tag_ids d →
    bad_identifier item_id d →
    unparsable (report r) item_id d.

Definition item_exists (oid : ObjectId) (d : Db) : Prop :=
  VOid oid ∈ doc_id <$> items d.

Definition tag_exists (oid : ObjectId) (d : Db) : Prop :=
  VOid oid ∈ doc_id <$> tags d.

(** The association records of an item, and the tag identifiers the
    service holds for it (those of its first record). *)
Definition records_of (oid : ObjectId) (d : Db) : list item_tag :=
  filter (fun r => item_id r = oid) (item_tags d).

Definition associated (oid : ObjectId) (d : Db) : list ObjectId :=
  from_option tag_ids [] (lookup_item_tags oid (item_tags d)).

(** The records of the other items. *)
Definition records_of_others (oid : ObjectId) (d : Db) : list item_tag :=
  filter (fun r => item_id r ≠ oid) (item_tags d).

(** Every tag identifier in an association record is that of a stored
    tag. *)
Definition referential_integrity (d : Db) : Prop :=
  ∀ r t, r ∈ item_tags d → t ∈ tag_ids r → tag_exists t d.

(** No item has two association records. *)
Definition one_record_per_item (d : Db) : Prop :=
  NoDup (item_id <$> item_tags d).

(** A body that holds just the entries of [tag_ids]. *)
Definition tag_ids_of (l : list value) : value := VDict [("tag_ids", VList l)].

(** The errors of [associate]. *)
Definition associate_error (r : response) : Prop :=
  r = InvalidInput ∨ r = InvalidIdentifier ∨ r = ItemNotFound ∨ r = TagsNotFound.

(** The calls that write. *)
Definition is_write (a : access) : Prop :=
  match a with
  | InsertOne _ | UpdateOneItemTags => True
  | Find _ | FindOne _ | FindOneItemTags => False
  end.

(** The five ways a request with a mapping for body can end. *)
Inductive outcome (item_id : string) (d : list (string * value))
  (w : world) : result response → world → Prop :=
| invalid_input :
    bad_tag_ids d →
    outcome item_id d w (Ok InvalidInput) w
| invalid_identifier :
    ¬ bad_tag_ids d →
    bad_identifier item_id d →
    outcome item_id d w (Ok InvalidIdentifier) w
| item_not_found i ts :
    ¬ bad_tag_ids d →
    parse_ids item_id (entries d) = Some (i, ts) →
    ¬ item_exists i (db w) →
    outcome item_id d w (Ok ItemNotFound) (noted (FindOne Items) w)
| tags_not_found i ts :
    ¬ bad_tag_ids d →
    parse_ids item_id (entries d) = Some (i, ts) →
    item_exists i (db w) →
    ¬ (NoDup ts ∧ ∀ t, t ∈ ts → tag_exists t (db w)) →
    outcome item_id d w (Ok TagsNotFound)
      (noted (Find Tags) (noted (FindOne Items) w))
| tags_associated i ts w' :
    ¬ bad_tag_ids d →
    parse_ids item_id (entries d) = Some (i, ts) →
    item_exists i (db w) →
    NoDup ts →
    (∀ t, t ∈ ts → tag_exists t (db w)) →
    update_one_item_tags i ts
      (noted (Find Tags) (noted (FindOne Items) w)) = (Ok tt, w') →
    outcome item_id d w (Ok (Associated item_id ts)) w'.

(** The calls a handler added to the journal. *)
Definition calls_between (w w' : world) (l : list access) : Prop :=
  journal w' = journal w ++ l.

(** ** More vocabulary: answers, calls and well-formed records *)

(** The answers with which a handler reports success. *)
Definition succeeded (r : response) : Prop := snd r = 200 ∨ snd r = 201.

(** The values that are false for Python. *)
Definition falsy (v : value) : Prop :=
  v = VNone ∨ v = VBool false ∨ v = VInt 0 ∨ (∃ e, v = VFloat 0 e)
  ∨ v = VStr "" ∨ v = VList [] ∨ v = VDict [].

(** Calls of which at most one writes, and that one is the last. *)
Definition one_write_at_most (l : list access) : Prop :=
  Forall (fun a => ¬ is_write a) l
  ∨ ∃ reads a, l = reads ++ [a]
               ∧ Forall (fun a => ¬ is_write a) reads
               ∧ is_write a.

(** No association record holds a tag twice. *)
Definition tags_held_once (d : Db) : Prop :=
  ∀ r, r ∈ item_tags d → NoDup (tag_ids r).

(** Every association record is that of a stored item. *)
Definition records_of_stored_items (d : Db) : Prop :=
  ∀ r, r ∈ item_tags d → item_exists (item_id r) d.

(** Every association record holds a tag. *)
Definition records_hold_a_tag (d : Db) : Prop :=
  ∀ r, r ∈ item_tags d → tag_ids r ≠ [].

End App.

Arguments value : clear implicits.
Arguments response : clear implicits.
Arguments document : clear implicits.
Arguments item_tag : clear implicits.
Arguments Db : clear implicits.
Arguments world : clear implicits.
Arguments request : clear implicits.

(** ** A reference instance

    An instance of the parameters for the examples.  Identifiers are
    96-bit numbers, generated in sequence.  A string is read as an
    identifier when it is 24 hexadecimal digits, the form in which the
    service hands identifiers out; every other value but an identifier is
    refused (the constructor of [bson] reads more: white space between
    the digits, twelve bytes, and [None], for which it generates an
    identifier).  [str] is that of Python on identifiers, strings, [None],
    booleans and integers, the values the examples turn into strings.
    The driver refuses integers beyond 8 bytes, the server an [_id] that
    is stored already. *)

Module Reference.

Definition ObjectId := N.

Definition hex_digit (c : ascii) : option N :=
  let n := N_of_ascii c in
  if (48 <=? n)%N && (n <=? 57)%N then Some (n - 48)%N
  else if (97 <=? n)%N && (n <=? 102)%N then Some (n - 87)%N
  else if (65 <=? n)%N && (n <=? 70)%N then Some (n - 55)%N
  else None.

Fixpoint hex_value (acc : N) (s : string) : option N :=
  match s with
  | EmptyString => Some acc
  | String c s' =>
      match hex_digit c with
      | Some d => hex_value (16 * acc + d)%N s'
      | None => None
      end
  end.

Definition ObjectId_of (v : value N) : option ObjectId :=
  match v with
  | VStr s => if Nat.eqb (String.length s) 24 then hex_value 0 s else None
  | VOid o => Some o
  | _ => None
  end.

Definition hex_char (d : N) : ascii :=
  ascii_of_N (if (d <? 10)%N then d + 48 else d + 87)%N.

Fixpoint hex_string (digits : nat) (n : N) (acc : string) : string :=
  match digits with
  | O => acc
  | S k => hex_string k (n / 16)%N (String (hex_char (n mod 16)%N) acc)
  end.

Definition str (v : value N) : string :=
  match v with
  | VOid o => hex_string 24 o ""
  | VStr s => s
  | VNone => "None"
  | VBool true => "True"
  | VBool false => "False"
  | VInt n => pretty n
  | VFloat _ _ => "<float>"
  | VList _ => "<list>"
  | VDict _ => "<dict>"
  end.

Definition new_ObjectId (n : nat) : ObjectId := N.of_nat n.

(** The integers of a value fit in 8 bytes. *)
Fixpoint encodable (v : value N) : bool :=
  match v with
  | VInt n => (- 2 ^ 63 <=? n)%Z && (n <? 2 ^ 63)%Z
  | VList l => forallb encodable l
  | VDict d => forallb (fun kv => encodable (snd kv)) d
  | _ => true
  end.

Definition bson_error (d : document N) : option exn :=
  if encodable (doc_id d) && encodable (VDict (doc_fields d))
  then None else Some OverflowError.

(** Equality of values, by which the instance tells that an [_id] is
    taken. *)
Fixpoint value_eqb (a b : value N) : bool :=
  match a, b with
  | VNone, VNone => true
  | VBool x, VBool y => Bool.eqb x y
  | VInt x, VInt y => (x =? y)%Z
  | VFloat m e, VFloat m' e' => (m =? m')%Z && (e =? e')%Z
  | VStr s, VStr t => String.eqb s t
  | VList l, VList k =>
      (fix all2 (l k : list (value N)) : bool :=
         match l, k with
         | [], [] => true
         | x :: l', y :: k' => value_eqb x y && all2 l' k'
         | _, _ => false
         end) l k
  | VDict l, VDict k =>
      (fix all2 (l k : list (string * value N)) : bool :=
         match l, k with
         | [], [] => true
         | (s, x) :: l', (t, y) :: k' =>
             String.eqb s t && value_eqb x y && all2 l' k'
         | _, _ => false
         end) l k
  | VOid o, VOid p => (o =? p)%N
  | _, _ => false
  end.

Definition write_error (stored : list (document N)) (d : document N)
  : option exn :=
  if existsb (fun d' => value_eqb (doc_id d') (doc_id d)) stored
  then Some DuplicateKeyError else None.

Definition create_item := create_item str new_ObjectId bson_error write_error.
Definition create_tag := create_tag str new_ObjectId bson_error write_error.
Definition list_items := @list_items N str.
Definition list_tags := @list_tags N.
Definition handle := handle ObjectId_of str new_ObjectId bson_error write_error.
Definition run := run ObjectId_of str new_ObjectId bson_error write_error.
Definition associate := create_item_tag_association ObjectId_of str new_ObjectId.
Definition tagsFor := get_tags_for_item ObjectId_of str.

End Reference.


(** A small shop: one item, one tag. *)
Definition book : value N :=
  VDict [("item_title", VStr "Book"); ("item_type", VStr "physical")].
Definition fiction : value N := VDict [("name", VStr "fiction")].
Definition poetry : value N := VDict [("name", VStr "poetry")].
Definition shop : world N :=
  Reference.run [POST_items book; POST_tags fiction; POST_tags poetry] init.
Definition book_id : string := Reference.str (VOid 0%N).
Definition fiction_id : string := Reference.str (VOid 1%N).
Definition poetry_id : string := Reference.str (VOid 2%N).
Definition tagged : world N :=
  snd (Reference.associate book_id (tag_ids_of [VStr fiction_id]) shop).

(** A pen and a tag that come with an [_id] of their own, and the shop
    once the tag is stored. *)
Definition pen : value N :=
  VDict [("_id", VStr "pen"); ("item_title", VStr "Pen")].
Definition drama : value N :=
  VDict [("_id", VStr "drama"); ("name", VStr "drama")].
Definition staged : world N := snd (Reference.create_tag drama shop).

(** * Properties *)

Section Properties.
Context {ObjectId : Type} `{Countable ObjectId}.
Variable ObjectId_of : value ObjectId → option ObjectId.
Variable str : value ObjectId → string.
Variable new_ObjectId : nat → ObjectId.
Variable bson_error : document ObjectId → option exn.
Variable write_error : list (document ObjectId) → document ObjectId → option exn.

Local Abbreviation associate :=
  (create_item_tag_association ObjectId_of str new_ObjectId).
Local Abbreviation tagsFor := (get_tags_for_item ObjectId_of str).
Local Abbreviation outcome := (outcome ObjectId_of str new_ObjectId).
Local Abbreviation handle :=
  (handle ObjectId_of str new_ObjectId bson_error write_error).
Local Abbreviation run :=
  (run ObjectId_of str new_ObjectId bson_error write_error).
Local Abbreviation create_item :=
  (create_item str new_ObjectId bson_error write_error).
Local Abbreviation create_tag :=
  (create_tag str new_ObjectId bson_error write_error).
Local Abbreviation insert_one :=
  (insert_one new_ObjectId bson_error write_error).

(** ** [$addToSet] *)

Lemma elem_of_add_to_set (new l : list ObjectId) x :
  x ∈ add_to_set l new ↔ x ∈ l ∨ x ∈ new.
Proof.
  unfold add_to_set. revert l.
  induction new as [|y new IH]; intros l; simpl.
  - rewrite elem_of_nil. tauto.
  - rewrite IH, elem_of_cons. destruct (decide (y ∈ l)) as [Hy|Hy].
    + split; [tauto|]. intros [?|[->|?]]; auto.
    + rewrite elem_of_app, list_elem_of_singleton. tauto.
Qed.

Lemma add_to_set_present (new l : list ObjectId) :
  (∀ x, x ∈ new → x ∈ l) → add_to_set l new = l.
Proof.
  unfold add_to_set. induction new as [|y new IH]; intros Hsub; simpl; [done|].
  rewrite decide_True by (apply Hsub; left).
  apply IH. intros x Hx. apply Hsub. by right.
Qed.

Lemma add_to_set_twice (new l : list ObjectId) :
  add_to_set (add_to_set l new) new = add_to_set l new.
Proof.
  apply add_to_set_present. intros x Hx. apply elem_of_add_to_set. by right.
Qed.

Lemma add_to_set_extends (new l : list ObjectId) :
  ∃ k, add_to_set l new = l ++ k.
Proof.
  unfold add_to_set. revert l.
  induction new as [|y new IH]; intros l; simpl.
  - exists []. by rewrite app_nil_r.
  - destruct (decide (y ∈ l)); [apply IH|].
    destruct (IH (l ++ [y])) as [k ->]. exists (y :: k). by rewrite <- app_assoc.
Qed.

Lemma NoDup_add_to_set (new l : list ObjectId) :
  NoDup l → NoDup (add_to_set l new).
Proof.
  unfold add_to_set. revert l.
  induction new as [|y new IH]; intros l Hl; simpl; [done|].
  destruct (decide (y ∈ l)); [by apply IH|].
  apply IH. apply NoDup_app. split_and!; [done| |apply NoDup_singleton].
  intros x Hx ->%list_elem_of_singleton. done.
Qed.

(** ** The count behind "Check tags exist" *)

Lemma list_to_set_cons_present (x : ObjectId) (l : list ObjectId) :
  x ∈ l → list_to_set (x :: l) =@{gset ObjectId} list_to_set l.
Proof.
  intros Hx. rewrite list_to_set_cons. apply set_eq. intros y.
  rewrite elem_of_union, elem_of_singleton, elem_of_list_to_set.
  split; [|tauto]. intros [->|?]; done.
Qed.

Lemma size_list_to_set_cons_fresh (x : ObjectId) (l : list ObjectId) :
  x ∉ l →
  size (list_to_set (x :: l) : gset ObjectId)
  = S (size (list_to_set l : gset ObjectId)).
Proof.
  intros Hx. rewrite list_to_set_cons, size_union, size_singleton; [done|].
  apply disjoint_singleton_l. by rewrite elem_of_list_to_set.
Qed.

Lemma size_list_to_set_le (l : list ObjectId) :
  size (list_to_set l : gset ObjectId) ≤ length l.
Proof.
  induction l as [|x l IH].
  - by rewrite list_to_set_nil, size_empty.
  - cbn [length]. destruct (decide (x ∈ l)) as [Hx|Hx].
    + rewrite list_to_set_cons_present by done. lia.
    + rewrite size_list_to_set_cons_fresh by done. lia.
Qed.

Lemma size_list_to_set_full (l : list ObjectId) :
  size (list_to_set l : gset ObjectId) = length l ↔ NoDup l.
Proof.
  split; [|apply size_list_to_set].
  induction l as [|x l IH]; [constructor|].
  cbn [length]. destruct (decide (x ∈ l)) as [Hx|Hx].
  - rewrite list_to_set_cons_present by done.
    pose proof (size_list_to_set_le l). lia.
  - rewrite size_list_to_set_cons_fresh by done.
    intros Hs. constructor; [done|]. apply IH. lia.
Qed.

(** A document is found by an [ObjectId] when that is its [_id]. *)
Lemma doc_oid_Some (d : document ObjectId) o :
  doc_oid d = Some o ↔ doc_id d = VOid o.
Proof.
  unfold doc_oid. destruct (doc_id d); split; intros Heq; by inversion Heq.
Qed.

Lemma doc_oid_among (d : document ObjectId) (ids : list ObjectId) :
  doc_oid d ∈ Some <$> ids ↔ ∃ t, t ∈ ids ∧ doc_id d = VOid t.
Proof.
  rewrite list_elem_of_fmap. split.
  - intros (t & Heq & Ht). exists t. split; [done|]. by apply doc_oid_Some.
  - intros (t & Ht & Heq). exists t. split; [|done].
    by apply doc_oid_Some.
Qed.

(** The sizes agree exactly when the request names every tag once and
    every tag it names is stored. *)
Lemma count_check (ids : list ObjectId) (l : list (document ObjectId)) :
  size (id_set (filter (fun d => doc_oid d ∈ Some <$> ids) l)) = length ids
  ↔ NoDup ids ∧ ∀ t, t ∈ ids → VOid t ∈ doc_id <$> l.
Proof.
  unfold id_set.
  set (S := list_to_set
              (omap doc_oid (filter (fun d => doc_oid d ∈ Some <$> ids) l))
         : gset ObjectId).
  set (T := list_to_set ids : gset ObjectId).
  assert (HST : S ⊆ T).
  { intros t. unfold S, T. rewrite !elem_of_list_to_set, list_elem_of_omap.
    intros (d & Hd & Heq). apply list_elem_of_filter in Hd as [Hd _].
    rewrite Heq in Hd. apply list_elem_of_fmap in Hd as (t' & Heq' & Ht').
    by inversion Heq'. }
  assert (HT : size T ≤ length ids) by apply size_list_to_set_le.
  pose proof (subseteq_size _ _ HST) as HS.
  split.
  - intros Heq.
    assert (NoDup ids) as Hnd by (apply size_list_to_set_full; fold T; lia).
    split; [done|]. intros t Ht.
    assert (S = T) as HeqST by (apply set_subseteq_size_eq; [done|lia]).
    assert (t ∈ S) as Hin by (rewrite HeqST; by apply elem_of_list_to_set).
    unfold S in Hin. rewrite elem_of_list_to_set, list_elem_of_omap in Hin.
    destruct Hin as (d & Hd & Heqd). apply list_elem_of_filter in Hd as [_ Hd].
    apply doc_oid_Some in Heqd. rewrite <- Heqd. by apply list_elem_of_fmap_2.
  - intros [Hnd Hall].
    assert (S = T) as ->.
    { apply set_eq. intros t. split; [apply HST|].
      unfold S, T. rewrite !elem_of_list_to_set. intros Ht.
      pose proof (Hall t Ht) as Hex. apply list_elem_of_fmap in Hex.
      destruct Hex as (d & Heqd & Hd). symmetry in Heqd.
      apply list_elem_of_omap. exists d. split; [|by apply doc_oid_Some].
      apply list_elem_of_filter. split; [|done].
      apply doc_oid_among. by exists t. }
    by apply size_list_to_set.
Qed.

(** ** The upsert *)

Lemma lookup_item_tags_cons oid (r : item_tag ObjectId) l :
  lookup_item_tags oid (r :: l)
  = if decide (item_id r = oid) then Some r else lookup_item_tags oid l.
Proof.
  unfold lookup_item_tags. rewrite filter_cons. by destruct (decide _).
Qed.

Lemma lookup_item_tags_app oid (l k : list (item_tag ObjectId)) :
  lookup_item_tags oid (l ++ k)
  = match lookup_item_tags oid l with
    | Some r => Some r
    | None => lookup_item_tags oid k
    end.
Proof.
  induction l as [|r l IH]; [done|].
  cbn [app]. rewrite !lookup_item_tags_cons. by destruct (decide _).
Qed.

Lemma lookup_item_tags_Some oid (l : list (item_tag ObjectId)) r :
  lookup_item_tags oid l = Some r → r ∈ l ∧ item_id r = oid.
Proof.
  unfold lookup_item_tags. intros Hh. apply head_Some_elem_of in Hh.
  apply list_elem_of_filter in Hh. tauto.
Qed.

Lemma lookup_item_tags_None oid (l : list (item_tag ObjectId)) :
  lookup_item_tags oid l = None ↔ oid ∉ item_id <$> l.
Proof.
  induction l as [|r l IH]; [split; [intros _; apply not_elem_of_nil|done]|].
  rewrite lookup_item_tags_cons, fmap_cons, elem_of_cons.
  destruct (decide (item_id r = oid)) as [Heq|Hne].
  - split; [done|]. intros Hn. destruct Hn. by left.
  - rewrite IH. split; [intros Hn [->|?]; done|].
    intros Hn ?. apply Hn. by right.
Qed.

Lemma update_first_None oid new (l : list (item_tag ObjectId)) :
  update_first oid new l = None ↔ lookup_item_tags oid l = None.
Proof.
  induction l as [|r l IH]; [done|].
  cbn [update_first]. rewrite lookup_item_tags_cons.
  destruct (decide _); [done|]. by rewrite fmap_None.
Qed.

Lemma update_first_Some oid new (l l' : list (item_tag ObjectId)) :
  update_first oid new l = Some l' →
  ∃ r, lookup_item_tags oid l = Some r
       ∧ lookup_item_tags oid l'
         = Some (ItemTag (it_id r) (item_id r) (add_to_set (tag_ids r) new))
       ∧ (∀ j, j ≠ oid → lookup_item_tags j l' = lookup_item_tags j l)
       ∧ filter (fun r => item_id r ≠ oid) l'
         = filter (fun r => item_id r ≠ oid) l
       ∧ item_id <$> l' = item_id <$> l.
Proof.
  revert l'. induction l as [|r l IH]; intros l'; [done|].
  cbn [update_first]. destruct (decide (item_id r = oid)) as [Heq|Hne].
  - intros [= <-]. exists r. rewrite !lookup_item_tags_cons. cbn [item_id].
    rewrite !decide_True by done. split_and!; try done.
    + intros j Hj. rewrite !lookup_item_tags_cons. cbn [item_id].
      by rewrite !decide_False by congruence.
    + rewrite !filter_cons. cbn [item_id]. by rewrite !decide_False by tauto.
  - destruct (update_first oid new l) as [k|] eqn:Hk; [|done].
    intros [= <-]. destruct (IH k eq_refl) as (r0 & Hl & Hk' & Hoth & Hfil & Hids).
    exists r0. rewrite !lookup_item_tags_cons, !decide_False by done.
    split_and!; try done.
    + intros j Hj. rewrite !lookup_item_tags_cons. destruct (decide _); auto.
    + rewrite !filter_cons. destruct (decide _); by rewrite ?Hfil.
    + by rewrite !fmap_cons, Hids.
Qed.

Lemma update_first_elem_of oid new (l l' : list (item_tag ObjectId)) r' t :
  update_first oid new l = Some l' → r' ∈ l' → t ∈ tag_ids r' →
  (∃ r, r ∈ l ∧ t ∈ tag_ids r) ∨ t ∈ new.
Proof.
  revert l'. induction l as [|r l IH]; intros l'; [done|].
  cbn [update_first]. destruct (decide (item_id r = oid)) as [Heq|Hne].
  - intros [= <-] [->|Hin]%elem_of_cons Ht.
    + cbn [tag_ids] in Ht. apply elem_of_add_to_set in Ht as [Ht|Ht]; [|by right].
      left. exists r. split; [left|done].
    + left. exists r'. split; [by right|done].
  - destruct (update_first oid new l) as [k|] eqn:Hk; [|done].
    intros [= <-] [->|Hin]%elem_of_cons Ht.
    + left. exists r. split; [left|done].
    + destruct (IH k eq_refl Hin Ht) as [(r0 & ? & ?)|?]; [|by right].
      left. exists r0. split; [by right|done].
Qed.

Lemma update_first_again oid new (l l' : list (item_tag ObjectId)) :
  update_first oid new l = Some l' → update_first oid new l' = Some l'.
Proof.
  revert l'. induction l as [|r l IH]; intros l'; [done|].
  cbn [update_first]. destruct (decide (item_id r = oid)) as [Heq|Hne].
  - intros [= <-]. cbn [update_first item_id it_id tag_ids].
    by rewrite decide_True, add_to_set_twice by done.
  - destruct (update_first oid new l) as [k|] eqn:Hk; [|done].
    intros [= <-]. cbn [update_first]. rewrite decide_False by done.
    by rewrite (IH k eq_refl).
Qed.

Lemma update_first_inserted oid new fresh (l : list (item_tag ObjectId)) :
  update_first oid new l = None →
  update_first oid new (l ++ [ItemTag fresh oid (add_to_set [] new)])
  = Some (l ++ [ItemTag fresh oid (add_to_set [] new)]).
Proof.
  induction l as [|r l IH].
  - intros _. cbn [app update_first item_id it_id tag_ids].
    by rewrite decide_True, add_to_set_twice by done.
  - cbn [app update_first]. destruct (decide (item_id r = oid)); [done|].
    intros Hn%fmap_None. by rewrite (IH Hn).
Qed.

(** What the upsert does to the database. *)
Lemma update_one_item_tags_spec oid new (w : world ObjectId) :
  ∃ w', update_one_item_tags new_ObjectId oid new w = (Ok tt, w')
    ∧ items (db w') = items (db w)
    ∧ tags (db w') = tags (db w)
    ∧ journal w' = journal w ++ [UpdateOneItemTags]
    ∧ associated oid (db w') = add_to_set (associated oid (db w)) new
    ∧ (∀ j, j ≠ oid → associated j (db w') = associated j (db w))
    ∧ records_of_others oid (db w') = records_of_others oid (db w)
    ∧ item_id <$> item_tags (db w')
      = (item_id <$> item_tags (db w))
        ++ (if decide (oid ∈ item_id <$> item_tags (db w)) then [] else [oid])
    ∧ (∀ r' t, r' ∈ item_tags (db w') → t ∈ tag_ids r' →
         (∃ r, r ∈ item_tags (db w) ∧ t ∈ tag_ids r) ∨ t ∈ new).
Proof.
  unfold update_one_item_tags, associated, records_of_others.
  destruct (update_first oid new (item_tags (db w))) as [l'|] eqn:Hup.
  - eexists. split; [done|]. cbn [db items tags item_tags journal].
    destruct (update_first_Some _ _ _ _ Hup) as (r & Hl & Hl' & Hoth & Hfil & Hids).
    rewrite Hl, Hl'. cbn [from_option tag_ids].
    split_and!; try done.
    + intros j Hj. by rewrite Hoth.
    + rewrite Hids. apply lookup_item_tags_Some in Hl as [Hin <-].
      rewrite decide_True by (by apply list_elem_of_fmap_2).
      by rewrite app_nil_r.
    + intros r' t. exact (update_first_elem_of _ _ _ _ r' t Hup).
  - eexists. split; [done|]. cbn [db items tags item_tags journal].
    apply update_first_None in Hup.
    rewrite lookup_item_tags_app, Hup, lookup_item_tags_cons. cbn [item_id].
    rewrite decide_True by done. cbn [from_option tag_ids].
    split_and!; try done.
    + intros j Hj. rewrite lookup_item_tags_app.
      destruct (lookup_item_tags j (item_tags (db w))); [done|].
      rewrite lookup_item_tags_cons. cbn [item_id].
      by rewrite decide_False by done.
    + rewrite filter_app, filter_cons. cbn [item_id].
      rewrite decide_False by tauto. by rewrite filter_nil, app_nil_r.
    + rewrite fmap_app. apply lookup_item_tags_None in Hup.
      by rewrite decide_False by done.
    + intros r' t [Hin| ->%list_elem_of_singleton]%elem_of_app Ht.
      * left. by exists r'.
      * cbn [tag_ids] in Ht. apply elem_of_add_to_set in Ht as [Ht|Ht]; [|by right].
        by apply elem_of_nil in Ht.
Qed.

(** The same upsert, asked again, writes what is already there. *)
Lemma update_one_item_tags_again oid new (w w' w1 : world ObjectId) :
  update_one_item_tags new_ObjectId oid new w = (Ok tt, w') →
  db w1 = db w' →
  db (snd (update_one_item_tags new_ObjectId oid new w1)) = db w1.
Proof.
  unfold update_one_item_tags. intros Hw Hdb.
  assert (update_first oid new (item_tags (db w')) = Some (item_tags (db w')))
    as Hagain.
  { destruct (update_first oid new (item_tags (db w))) as [l'|] eqn:Hup.
    - injection Hw as <-. cbn [db item_tags].
      exact (update_first_again _ _ _ _ Hup).
    - injection Hw as <-. cbn [db item_tags]. by apply update_first_inserted. }
  rewrite Hdb, Hagain. cbn [snd db]. by destruct (db w').
Qed.

(** ** The checks of [create_item_tag_association] *)

Lemma dict_get_field_of (d : list (string * value ObjectId)) key default :
  dict_get d key default = from_option id default (field_of d key).
Proof.
  induction d as [|[k v] d IH]; [done|].
  cbn [dict_get field_of]. by destruct (String.eqb k key).
Qed.

Lemma bad_tag_ids_iff (d : list (string * value ObjectId)) :
  negb (isinstance_list (dict_get d "tag_ids" (VList [])))
  || negb (truthy (dict_get d "tag_ids" (VList []))) = true
  ↔ bad_tag_ids d.
Proof.
  unfold bad_tag_ids, is_sequence. rewrite dict_get_field_of.
  destruct (field_of d "tag_ids") as [v|]; cbn [from_option id]; [|tauto].
  destruct v as [| | | | |[|x l]| |];
    cbn [isinstance_list truthy negb orb].
  all: split; [intros Hb|intros [Hb|[(v & [= <-] & Hb)|Hb]]]; try done.
  all: try (right; left; eexists; split; [done|]; by intros [? ?]).
  - by right; right.
  - destruct Hb. by eexists.
Qed.

Lemma parse_ids_None item_id (d : list (string * value ObjectId)) :
  parse_ids ObjectId_of item_id (entries d) = None
  ↔ bad_identifier ObjectId_of item_id d.
Proof.
  unfold parse_ids, bad_identifier.
  destruct (ObjectId_of (VStr item_id)) as [i|] eqn:Hi.
  - destruct (mapM ObjectId_of (entries d)) as [ts|] eqn:Hts.
    + split; [done|]. intros [[|] Hf]; cbn [unparsable] in Hf; [congruence|].
      destruct Hf as (v & Hv & Hnone).
      assert (mapM ObjectId_of (entries d) = None); [|congruence].
      apply mapM_None_2, Exists_exists. eauto.
    + split; [intros _|done]. exists tag_ids_field.
      apply mapM_None_1, Exists_exists in Hts. exact Hts.
  - split; [intros _|done]. by exists item_id_field.
Qed.

Lemma find_one_is_Some oid (l : list (document ObjectId)) :
  is_Some (head (filter (fun d => doc_oid d = Some oid) l))
  ↔ VOid oid ∈ doc_id <$> l.
Proof.
  induction l as [|d l IH].
  - split; [by intros [? ?]|by intros ?%elem_of_nil].
  - rewrite filter_cons, fmap_cons, elem_of_cons.
    destruct (decide (doc_oid d = Some oid)) as [Heq|Hne].
    + apply doc_oid_Some in Heq. split; [by left|by eexists].
    + rewrite IH. split; [by right|]. intros [Heq|?]; [|done].
      destruct Hne. by apply doc_oid_Some.
Qed.

Lemma associate_outcome_run item_id d w :
  outcome item_id d w (fst (associate item_id (VDict d) w))
    (snd (associate item_id (VDict d) w)).
Proof.
  unfold create_item_tag_association, bind, get, ret.
  fold (entries d).
  destruct (negb (isinstance_list (dict_get d "tag_ids" (VList [])))
            || negb (truthy (dict_get d "tag_ids" (VList [])))) eqn:Hshape.
  { apply invalid_input. by apply bad_tag_ids_iff. }
  assert (¬ bad_tag_ids d) as Hok by (rewrite <- bad_tag_ids_iff; congruence).
  destruct (parse_ids ObjectId_of item_id (entries d)) as [[i ts]|] eqn:Hparse.
  2: { apply invalid_identifier; [done|]. by apply parse_ids_None. }
  unfold find_one. cbn [docs].
  case_bool_decide as Hitem; cbn [negb].
  2: { eapply item_not_found; [done..|]. unfold item_exists.
       by rewrite <- find_one_is_Some. }
  apply find_one_is_Some in Hitem.
  unfold find_in. cbn [docs noted db].
  destruct (Nat.eqb _ _) eqn:Hcount; cbn [negb].
  2: { eapply tags_not_found; [done..|]. unfold tag_exists.
       rewrite <- count_check. apply Nat.eqb_neq in Hcount. done. }
  apply Nat.eqb_eq, count_check in Hcount as [Hnd Hall].
  destruct (update_one_item_tags_spec i ts
              (noted (Find Tags) (noted (FindOne Items) w))) as (w' & Hw' & _).
  rewrite Hw'. by eapply tags_associated.
Qed.

Lemma associate_outcome item_id d (w : world ObjectId) r w' :
  associate item_id (VDict d) w = (r, w') → outcome item_id d w r w'.
Proof.
  intros Hrun. pose proof (associate_outcome_run item_id d w) as Hout.
  by rewrite Hrun in Hout.
Qed.

Lemma parse_ids_Some item_id (l : list (value ObjectId)) i ts :
  parse_ids ObjectId_of item_id l = Some (i, ts)
  ↔ ObjectId_of (VStr item_id) = Some i ∧ mapM ObjectId_of l = Some ts.
Proof.
  unfold parse_ids. destruct (ObjectId_of (VStr item_id)) as [i'|].
  - destruct (mapM ObjectId_of l) as [ts'|]; split.
    + by intros [= -> ->].
    + by intros [[= ->] [= ->]].
    + done.
    + by intros [_ ?].
  - split; [done|]. by intros [? _].
Qed.

Lemma parsed_not_bad item_id (d : list (string * value ObjectId)) p :
  parse_ids ObjectId_of item_id (entries d) = Some p →
  ¬ bad_identifier ObjectId_of item_id d.
Proof. intros Hp Hb%parse_ids_None. congruence. Qed.

(** A handler run, split in its answer and the world it leaves. *)
Ltac run_associate item_id d w r w' Hout :=
  destruct (create_item_tag_association _ _ _ item_id (VDict d) w)
    as [r w'] eqn:Hout;
  apply associate_outcome in Hout; cbn [fst snd].

Lemma mapping_or_not (data : value ObjectId) :
  (∃ d, data = VDict d) ∨ (∀ d, data ≠ VDict d).
Proof. destruct data; try (by right); left; by eexists. Qed.

(** A body that is not a mapping has no [get]: the handler stops on an
    exception before any check. *)
Lemma associate_not_a_mapping item_id data (w : world ObjectId) :
  (∀ d, data ≠ VDict d) →
  associate item_id data w = (Raise AttributeError, w).
Proof.
  intros Hd. unfold create_item_tag_association, bind, get, raise.
  destruct data; try done. by destruct (Hd d).
Qed.

(** With a mapping for body, [InvalidInput] is the answer exactly for a
    bad [tag_ids], and it is given without a call to the storage layer. *)
Lemma invalid_input_iff item_id d (w : world ObjectId) :
  (fst (associate item_id (VDict d) w) = Ok InvalidInput ↔ bad_tag_ids d)
  ∧ (bad_tag_ids d → snd (associate item_id (VDict d) w) = w).
Proof.
  run_associate item_id d w r w' Hout.
  split; [split|]; intros Hb; by destruct Hout.
Qed.

(** C2.  A request whose body is [null] carries no [tag_ids]; the code
    does not answer it with [InvalidInput]: [data.get] raises
    [AttributeError] before the check of [tag_ids] is reached, and the
    storage layer is not called. *)
Theorem associate_null_body_raises item_id (w : world ObjectId) :
  associate item_id VNone w = (Raise AttributeError, w).
Proof. by apply associate_not_a_mapping. Qed.

(** C3, as amended.  For a request whose body is a mapping the error is
    fixed by the order of the checks: [InvalidInput] for a bad [tag_ids];
    then [InvalidIdentifier], one answer whichever field does not parse;
    then [ItemNotFound] if the item is not stored; then [TagsNotFound] if
    a requested tag is not stored.  The calls made to the storage layer
    stop at the check that fails. *)
Theorem associate_check_order item_id d (w : world ObjectId) :
  let r := fst (associate item_id (VDict d) w) in
  let w' := snd (associate item_id (VDict d) w) in
  (bad_tag_ids d → r = Ok InvalidInput ∧ calls_between w w' [])
  ∧ (¬ bad_tag_ids d → bad_identifier ObjectId_of item_id d →
     r = Ok InvalidIdentifier ∧ calls_between w w' [])
  ∧ (∀ i ts,
       ¬ bad_tag_ids d →
       ObjectId_of (VStr item_id) = Some i →
       mapM ObjectId_of (entries d) = Some ts →
       (¬ item_exists i (db w) →
        r = Ok ItemNotFound ∧ calls_between w w' [FindOne Items])
       ∧ (item_exists i (db w) →
          (∃ t, t ∈ ts ∧ ¬ tag_exists t (db w)) →
          r = Ok TagsNotFound ∧ calls_between w w' [FindOne Items; Find Tags])).
Proof.
  cbv zeta. run_associate item_id d w r w' Hout.
  unfold calls_between. split_and!.
  - intros Hb. destruct Hout; try done. by rewrite app_nil_r.
  - intros Hok Hbad. destruct Hout; try done.
    all: try (by destruct (parsed_not_bad _ _ _ ltac:(eassumption))).
    by rewrite app_nil_r.
  - intros i ts Hok Hi Hts.
    assert (parse_ids ObjectId_of item_id (entries d) = Some (i, ts)) as Hp
      by by apply parse_ids_Some.
    split.
    + intros Hno. destruct Hout; try done.
      all: try (by destruct (parsed_not_bad _ _ _ Hp)).
      all: congruence.
    + intros Hi0 (t & Ht & Hmiss). destruct Hout; try done.
      all: try (by destruct (parsed_not_bad _ _ _ Hp)).
      * congruence.
      * split; [done|]. unfold noted, logged. cbn [journal]. by rewrite <- app_assoc.
      * assert (ts0 = ts) as -> by congruence. destruct Hmiss. auto.
Qed.

(** ** Success, errors and what they leave behind *)

Lemma associate_success item_id data (w : world ObjectId) r w' :
  associate item_id data w = (Ok r, w') → snd r = 200 →
  ∃ d i ts,
    data = VDict d
    ∧ ¬ bad_tag_ids d
    ∧ parse_ids ObjectId_of item_id (entries d) = Some (i, ts)
    ∧ item_exists i (db w)
    ∧ NoDup ts
    ∧ (∀ t, t ∈ ts → tag_exists t (db w))
    ∧ r = Associated str item_id ts
    ∧ update_one_item_tags new_ObjectId i ts
        (noted (Find Tags) (noted (FindOne Items) w)) = (Ok tt, w').
Proof.
  intros Hrun Hs.
  destruct (mapping_or_not data) as [[d ->]|Hnd].
  - apply associate_outcome in Hrun.
    inversion Hrun; subst; try discriminate Hs.
    by exists d, i, ts.
  - by rewrite associate_not_a_mapping in Hrun.
Qed.

Lemma associate_error_status (r : response ObjectId) :
  associate_error r → snd r ≠ 200.
Proof. by intros [-> | [-> | [-> | ->]]]. Qed.

(** C9.  Whenever [associate] answers with one of its errors, the three
    collections are as they were before the call and no write was sent
    to the storage layer.  In every run the storage layer sees either no
    write at all, or exactly one, the upsert, as the last call of a run
    in which every check has passed; all the requested tags are then in
    the record of the item. *)
Theorem associate_error_atomic item_id data (w : world ObjectId) :
  let o := fst (associate item_id data w) in
  let w' := snd (associate item_id data w) in
  (∀ r, o = Ok r → associate_error r →
     db w' = db w
     ∧ ∃ calls, calls_between w w' calls ∧ Forall (fun a => ¬ is_write a) calls)
  ∧ ((db w' = db w
      ∧ ∃ calls, calls_between w w' calls ∧ Forall (fun a => ¬ is_write a) calls)
     ∨ (∃ d i ts,
          data = VDict d
          ∧ ¬ bad_tag_ids d
          ∧ ObjectId_of (VStr item_id) = Some i
          ∧ mapM ObjectId_of (entries d) = Some ts
          ∧ item_exists i (db w)
          ∧ (∀ t, t ∈ ts → tag_exists t (db w))
          ∧ o = Ok (Associated str item_id ts)
          ∧ calls_between w w' [FindOne Items; Find Tags; UpdateOneItemTags]
          ∧ ∀ t, t ∈ ts → t ∈ associated i (db w'))).
Proof.
  cbv zeta.
  assert (∀ w1 : world ObjectId, ∀ l,
            db w1 = db w → journal w1 = journal w ++ l →
            Forall (fun a => ¬ is_write a) l →
            db w1 = db w
            ∧ ∃ calls, calls_between w w1 calls
                       ∧ Forall (fun a => ¬ is_write a) calls) as Hread.
  { intros w1 l ? ? ?. split; [done|]. by exists l. }
  destruct (mapping_or_not data) as [[d ->]|Hnd].
  2: { rewrite associate_not_a_mapping by done.
       cbn [fst snd]. split; [done|]. left.
       apply (Hread w []); [done|by rewrite app_nil_r|constructor]. }
  run_associate item_id d w r w' Hout.
  destruct Hout as [Hb|Hok Hbad|i ts Hok Hp Hno|i ts Hok Hp Hi Hmiss
                   |i ts w' Hok Hp Hi Hnd Hall Hup].
  - assert (db w = db w
            ∧ ∃ calls, calls_between w w calls
                       ∧ Forall (fun a => ¬ is_write a) calls) as Hsame
      by (apply (Hread w []); [done|by rewrite app_nil_r|constructor]).
    split; [done|by left].
  - assert (db w = db w
            ∧ ∃ calls, calls_between w w calls
                       ∧ Forall (fun a => ¬ is_write a) calls) as Hsame
      by (apply (Hread w []); [done|by rewrite app_nil_r|constructor]).
    split; [done|by left].
  - assert (db (noted (FindOne Items) w) = db w
            ∧ ∃ calls, calls_between w (noted (FindOne Items) w) calls
                       ∧ Forall (fun a => ¬ is_write a) calls) as Hsame.
    { apply (Hread _ [FindOne Items]); [done|done|].
      repeat constructor; by intros []. }
    split; [done|by left].
  - assert (db (noted (Find Tags) (noted (FindOne Items) w)) = db w
            ∧ ∃ calls,
                calls_between w (noted (Find Tags) (noted (FindOne Items) w)) calls
                ∧ Forall (fun a => ¬ is_write a) calls) as Hsame.
    { apply (Hread _ [FindOne Items; Find Tags]); [done| |].
      - unfold noted, logged. cbn [journal]. by rewrite <- app_assoc.
      - repeat constructor; by intros []. }
    split; [done|by left].
  - destruct (update_one_item_tags_spec i ts
                (noted (Find Tags) (noted (FindOne Items) w)))
      as (w'' & Hw'' & _ & _ & Hj & Hassoc & _).
    rewrite Hup in Hw''. injection Hw'' as <-.
    apply parse_ids_Some in Hp as [Hpi Hpts].
    split.
    + intros r [= <-] Herr%associate_error_status. done.
    + right. exists d, i, ts. split_and!; try done.
      * unfold calls_between. rewrite Hj. unfold noted, logged. cbn [journal].
        by rewrite <- !app_assoc.
      * intros t Ht. rewrite Hassoc. apply elem_of_add_to_set. by right.
Qed.

(** C10.  Listing the items, listing the tags and [tagsFor] leave the
    three collections as they were.  A successful [associate] leaves the
    items, the tags and the association records of every other item as
    they were. *)
Theorem frame_of_reads_and_associate :
  (∀ w : world ObjectId, db (snd (list_items str w)) = db w)
  ∧ (∀ w : world ObjectId, db (snd (list_tags w)) = db w)
  ∧ (∀ item_id (w : world ObjectId), db (snd (tagsFor item_id w)) = db w)
  ∧ (∀ item_id data (w : world ObjectId) r w',
       associate item_id data w = (Ok r, w') → snd r = 200 →
       ∃ i, ObjectId_of (VStr item_id) = Some i
            ∧ items (db w') = items (db w)
            ∧ tags (db w') = tags (db w)
            ∧ records_of_others i (db w') = records_of_others i (db w)).
Proof.
  split_and!.
  - done.
  - done.
  - intros item_id w. unfold get_tags_for_item, bind, ret, find_one_item_tags.
    destruct (ObjectId_of (VStr item_id)) as [i|]; [|done].
    destruct (lookup_item_tags i (item_tags (db w))) as [r|]; [|done].
    by destruct (tag_ids r).
  - intros item_id data w r w' Hrun Hs.
    destruct (associate_success _ _ _ _ _ Hrun Hs)
      as (d & i & ts & -> & Hok & Hp & Hi & Hnd & Hall & -> & Hup).
    destruct (update_one_item_tags_spec i ts
                (noted (Find Tags) (noted (FindOne Items) w)))
      as (w'' & Hw'' & Hitems & Htags & _ & _ & _ & Hoth & _).
    rewrite Hup in Hw''. injection Hw'' as <-.
    apply parse_ids_Some in Hp as [Hpi _].
    by exists i.
Qed.

(** C4.  If a call of [associate] succeeds, the same call made again
    succeeds with the same answer and leaves the database, and so the
    association record of the item, exactly as the first call left it. *)
Theorem associate_idempotent item_id data (w : world ObjectId) r w1 :
  associate item_id data w = (Ok r, w1) → snd r = 200 →
  ∃ w2, associate item_id data w1 = (Ok r, w2) ∧ db w2 = db w1.
Proof.
  intros Hrun Hs.
  destruct (associate_success _ _ _ _ _ Hrun Hs)
    as (d & i & ts & -> & Hok & Hp & Hi & Hnd & Hall & -> & Hup).
  destruct (update_one_item_tags_spec i ts
              (noted (Find Tags) (noted (FindOne Items) w)))
    as (w'' & Hw'' & Hitems & Htags & _).
  rewrite Hup in Hw''. injection Hw'' as <-.
  destruct (associate item_id (VDict d) w1) as [r2 w2] eqn:Hrun2.
  exists w2. apply associate_outcome in Hrun2.
  destruct Hrun2 as [Hb|Hok2 Hbad|i2 ts2 Hok2 Hp2 Hno|i2 ts2 Hok2 Hp2 Hi2 Hmiss
                    |i2 ts2 w2 Hok2 Hp2 Hi2 Hnd2 Hall2 Hup2].
  - done.
  - by destruct (parsed_not_bad _ _ _ Hp).
  - assert (i2 = i) as -> by congruence.
    destruct Hno. unfold item_exists in *. by rewrite Hitems.
  - assert (i2 = i ∧ ts2 = ts) as [-> ->] by (split; congruence).
    destruct Hmiss. split; [done|]. intros t Ht. unfold tag_exists in *.
    rewrite Htags. by apply Hall.
  - assert (i2 = i ∧ ts2 = ts) as [-> ->] by (split; congruence).
    split; [done|].
    pose proof (update_one_item_tags_again i ts _ _
                  (noted (Find Tags) (noted (FindOne Items) w1)) Hup eq_refl)
      as Hagain.
    by rewrite Hup2 in Hagain.
Qed.

(** ** What a request can do to the database *)

Lemma associate_succeeds item_id d (w : world ObjectId) i ts :
  ¬ bad_tag_ids d →
  parse_ids ObjectId_of item_id (entries d) = Some (i, ts) →
  item_exists i (db w) →
  NoDup ts →
  (∀ t, t ∈ ts → tag_exists t (db w)) →
  ∃ w', associate item_id (VDict d) w = (Ok (Associated str item_id ts), w')
        ∧ update_one_item_tags new_ObjectId i ts
            (noted (Find Tags) (noted (FindOne Items) w)) = (Ok tt, w').
Proof.
  intros Hok Hp Hi Hnd Hall.
  destruct (associate item_id (VDict d) w) as [r w'] eqn:Hrun.
  exists w'. apply associate_outcome in Hrun.
  destruct Hrun as [Hb|Hok2 Hbad|i2 ts2 Hok2 Hp2 Hno|i2 ts2 Hok2 Hp2 Hi2 Hmiss
                   |i2 ts2 w2 Hok2 Hp2 Hi2 Hnd2 Hall2 Hup2].
  - done.
  - by destruct (parsed_not_bad _ _ _ Hp).
  - assert (i2 = i) as -> by congruence. done.
  - assert (i2 = i ∧ ts2 = ts) as [-> ->] by (split; congruence).
    by destruct Hmiss.
  - assert (i2 = i ∧ ts2 = ts) as [-> ->] by (split; congruence). done.
Qed.

(** A call of [associate] leaves the database alone or ends in the
    upsert of tags that were all found. *)
Lemma associate_effect item_id data (w : world ObjectId) :
  db (snd (associate item_id data w)) = db w
  ∨ ∃ i ts, ObjectId_of (VStr item_id) = Some i
            ∧ item_exists i (db w)
            ∧ (∀ t, t ∈ ts → tag_exists t (db w))
            ∧ update_one_item_tags new_ObjectId i ts
                (noted (Find Tags) (noted (FindOne Items) w))
              = (Ok tt, snd (associate item_id data w)).
Proof.
  destruct (mapping_or_not data) as [[d ->]|Hnd].
  2: { left. by rewrite associate_not_a_mapping. }
  run_associate item_id d w r w' Hout.
  destruct Hout as [Hb|Hok Hbad|i ts Hok Hp Hno|i ts Hok Hp Hi Hmiss
                   |i ts w' Hok Hp Hi Hnd Hall Hup]; try (by left).
  right. exists i, ts. by apply parse_ids_Some in Hp as [? _].
Qed.

Lemma insert_one_effect c data (w : world ObjectId) :
  let w' := snd (insert_one c data w) in
  item_tags (db w') = item_tags (db w)
  ∧ items (db w) `prefix_of` items (db w')
  ∧ tags (db w) `prefix_of` tags (db w').
Proof.
  unfold insert_one. destruct data; cbn [snd]; try done.
  destruct (bson_error _); [done|].
  destruct (write_error _ _); [done|].
  destruct c; cbn [snd set_docs docs db items tags item_tags].
  all: split_and!; try done; by apply prefix_app_r.
Qed.

(** Only [POST /items/<item_id>/tags] touches [item_tags]; no request
    takes an item or a tag away. *)
Lemma handle_effect q (w : world ObjectId) :
  let w' := snd (handle q w) in
  items (db w) `prefix_of` items (db w')
  ∧ tags (db w) `prefix_of` tags (db w')
  ∧ ((∀ item_id data, q ≠ POST_item_tags item_id data) →
     item_tags (db w') = item_tags (db w)).
Proof.
  destruct q as [|data| |data| |item_id data|item_id]; cbn [handle].
  - done.
  - unfold create_item, bind, ret.
    destruct (negb (truthy data)); [done|].
    pose proof (insert_one_effect Items data w) as (Hit & Hi & Ht).
    destruct (insert_one Items data w) as [[oid|e] w']; done.
  - done.
  - unfold create_tag, bind, ret.
    destruct (negb (truthy data)); [done|].
    pose proof (insert_one_effect Tags data w) as (Hit & Hi & Ht).
    destruct (insert_one Tags data w) as [[oid|e] w']; done.
  - done.
  - destruct (associate_effect item_id data w)
      as [->|(i & ts & _ & _ & _ & Hup)].
    + done.
    + destruct (update_one_item_tags_spec i ts
                  (noted (Find Tags) (noted (FindOne Items) w)))
        as (w'' & Hw'' & Hitems & Htags & _).
      rewrite Hup in Hw''. injection Hw'' as <-.
      rewrite Hitems, Htags. split_and!; try done.
      intros Hq. by destruct (Hq item_id data).
  - assert (db (snd (tagsFor item_id w)) = db w) as ->; [|done].
    unfold get_tags_for_item, bind, ret, find_one_item_tags.
    destruct (ObjectId_of (VStr item_id)) as [i|]; [|done].
    destruct (lookup_item_tags i (item_tags (db w))) as [r|]; [|done].
    by destruct (tag_ids r).
Qed.

Lemma tag_exists_prefix t (d d' : Db ObjectId) :
  tags d `prefix_of` tags d' → tag_exists t d → tag_exists t d'.
Proof.
  unfold tag_exists. intros [k ->]. rewrite fmap_app, elem_of_app. by left.
Qed.

(** Every tag identifier in a record after a call of [associate] was in
    a record before, or is that of a tag stored when the call was made. *)
Lemma associate_adds_stored_tags item_id data (w : world ObjectId) rec t :
  rec ∈ item_tags (db (snd (associate item_id data w))) →
  t ∈ tag_ids rec →
  (∃ rec0, rec0 ∈ item_tags (db w) ∧ t ∈ tag_ids rec0) ∨ tag_exists t (db w).
Proof.
  destruct (associate_effect item_id data w)
    as [->|(i & ts & _ & _ & Hall & Hup)].
  - intros Hrec Ht. left. by exists rec.
  - destruct (update_one_item_tags_spec i ts
                (noted (Find Tags) (noted (FindOne Items) w)))
      as (w'' & Hw'' & _ & _ & _ & _ & _ & _ & _ & Hin).
    rewrite Hup in Hw''. injection Hw'' as <-.
    intros Hrec Ht. destruct (Hin rec t Hrec Ht) as [?|?]; [by left|].
    right. by apply Hall.
Qed.

Lemma handle_referential_integrity q (w : world ObjectId) :
  referential_integrity (db w) →
  referential_integrity (db (snd (handle q w))).
Proof.
  intros Hri rec t Hrec Ht.
  pose proof (handle_effect q w) as (_ & Htags & Hsame).
  apply (tag_exists_prefix _ _ _ Htags).
  destruct q as [|data| |data| |item_id data|item_id].
  all: try (rewrite Hsame in Hrec by done; by eapply Hri).
  cbn [handle] in Hrec.
  destruct (associate_adds_stored_tags _ _ _ _ _ Hrec Ht)
    as [(rec0 & Hrec0 & Ht0)|?]; [by eapply Hri|done].
Qed.

Lemma handle_one_record_per_item q (w : world ObjectId) :
  one_record_per_item (db w) →
  one_record_per_item (db (snd (handle q w))).
Proof.
  unfold one_record_per_item. intros Hone.
  pose proof (handle_effect q w) as (_ & _ & Hsame).
  destruct q as [|data| |data| |item_id data|item_id].
  all: try (by rewrite Hsame by done).
  cbn [handle].
  destruct (associate_effect item_id data w)
    as [->|(i & ts & _ & _ & _ & Hup)]; [done|].
  destruct (update_one_item_tags_spec i ts
              (noted (Find Tags) (noted (FindOne Items) w)))
    as (w'' & Hw'' & _ & _ & _ & _ & _ & _ & Hids & _).
  rewrite Hup in Hw''. injection Hw'' as <-.
  rewrite Hids. cbn [noted db].
  destruct (decide _) as [Hin|Hnin]; [by rewrite app_nil_r|].
  apply NoDup_app. split_and!; [done| |apply NoDup_singleton].
  intros x Hx ->%list_elem_of_singleton. done.
Qed.

Lemma run_cons q qs (w : world ObjectId) :
  run (q :: qs) w
  = run qs
      (snd (handle q w)).
Proof. done. Qed.

Lemma run_invariant (P : Db ObjectId → Prop) :
  (∀ q w, P (db w) → P (db (snd (handle q w)))) →
  ∀ qs w, P (db w) → P (db (run qs w)).
Proof.
  intros Hstep qs. induction qs as [|q qs IH]; intros w Hw; [done|].
  rewrite run_cons. apply IH. by apply Hstep.
Qed.

(** C8.  Referential integrity is kept by every request, so that in
    every state reached from the empty database by a sequence of
    requests every tag identifier in an association record is that of a
    stored tag.  It is so because a call of [associate] adds to the
    records only identifiers of tags stored when the call is made, no
    other request writes to the records, and no request removes a tag. *)
Theorem referential_integrity_invariant :
  (∀ qs (w : world ObjectId),
     referential_integrity (db w) →
     referential_integrity (db (run qs w)))
  ∧ (∀ qs, referential_integrity
             (db (run qs init)))
  ∧ (∀ item_id data (w : world ObjectId) rec t,
       rec ∈ item_tags (db (snd (associate item_id data w))) →
       t ∈ tag_ids rec →
       (∃ rec0, rec0 ∈ item_tags (db w) ∧ t ∈ tag_ids rec0)
       ∨ tag_exists t (db w))
  ∧ (∀ q (w : world ObjectId),
       let w' := snd (handle q w) in
       tags (db w) `prefix_of` tags (db w')
       ∧ ((∀ item_id data, q ≠ POST_item_tags item_id data) →
          item_tags (db w') = item_tags (db w))).
Proof.
  split_and!.
  - apply run_invariant, handle_referential_integrity.
  - intros qs. apply run_invariant; [apply handle_referential_integrity|].
    intros rec t Hrec. by apply elem_of_nil in Hrec.
  - apply associate_adds_stored_tags.
  - intros q w. pose proof (handle_effect q w) as (_ & ? & ?). done.
Qed.

(** ** Accumulation *)

Lemma update_one_item_tags_record oid new (w w' : world ObjectId) :
  update_one_item_tags new_ObjectId oid new w = (Ok tt, w') →
  ∃ rec, lookup_item_tags oid (item_tags (db w')) = Some rec
         ∧ tag_ids rec = add_to_set (associated oid (db w)) new.
Proof.
  intros Hup.
  destruct (update_one_item_tags_spec oid new w)
    as (w'' & Hw'' & _ & _ & _ & Hassoc & _ & _ & Hids & _).
  rewrite Hup in Hw''. injection Hw'' as <-.
  destruct (lookup_item_tags oid (item_tags (db w'))) as [rec|] eqn:Hl.
  - exists rec. split; [done|]. unfold associated in Hassoc at 1.
    by rewrite Hl in Hassoc.
  - apply lookup_item_tags_None in Hl. destruct Hl. rewrite Hids.
    apply elem_of_app. destruct (decide _); [by left|right].
    by apply list_elem_of_singleton.
Qed.

Lemma records_of_single i (d : Db ObjectId) rec :
  one_record_per_item d →
  lookup_item_tags i (item_tags d) = Some rec →
  records_of i d = [rec].
Proof.
  unfold one_record_per_item, records_of, lookup_item_tags.
  induction (item_tags d) as [|x l IH]; [done|].
  rewrite fmap_cons, NoDup_cons, filter_cons. intros [Hx Hl].
  destruct (decide (item_id x = i)) as [<-|Hne]; [|by apply IH].
  cbn [head]. intros [= <-]. f_equal.
  apply elem_of_nil_inv. intros r [Hr ?]%list_elem_of_filter.
  apply Hx. rewrite <- Hr. by apply list_elem_of_fmap_2.
Qed.

Lemma field_of_tag_ids (v : value ObjectId) :
  field_of [("tag_ids", v)] "tag_ids" = Some v.
Proof. done. Qed.

Lemma tag_ids_of_good (x : value ObjectId) l :
  ¬ bad_tag_ids [("tag_ids", VList (x :: l))].
Proof.
  unfold bad_tag_ids. rewrite field_of_tag_ids.
  intros [?|[(v & [= <-] & Hv)|?]]; try done. apply Hv. by eexists.
Qed.

Lemma entries_tag_ids (l : list (value ObjectId)) :
  entries [("tag_ids", VList l)] = l.
Proof. done. Qed.

(** One tag, known and stored, is associated. *)
Lemma associate_one item_id i a ta (w : world ObjectId) :
  ObjectId_of (VStr item_id) = Some i →
  ObjectId_of a = Some ta →
  item_exists i (db w) →
  tag_exists ta (db w) →
  ∃ w' rec,
    associate item_id (tag_ids_of [a]) w = (Ok (Associated str item_id [ta]), w')
    ∧ items (db w') = items (db w)
    ∧ tags (db w') = tags (db w)
    ∧ lookup_item_tags i (item_tags (db w')) = Some rec
    ∧ tag_ids rec = add_to_set (associated i (db w)) [ta]
    ∧ (one_record_per_item (db w) → one_record_per_item (db w')).
Proof.
  intros Hi Ha Hitem Htag. unfold tag_ids_of.
  destruct (associate_succeeds item_id [("tag_ids", VList [a])] w i [ta])
    as (w' & Hrun & Hup).
  - apply tag_ids_of_good.
  - apply parse_ids_Some. rewrite entries_tag_ids. split; [done|].
    cbn. by rewrite Ha.
  - done.
  - apply NoDup_singleton.
  - by intros t ->%list_elem_of_singleton.
  - destruct (update_one_item_tags_record _ _ _ _ Hup) as (rec & Hl & Hrec).
    destruct (update_one_item_tags_spec i [ta]
                (noted (Find Tags) (noted (FindOne Items) w)))
      as (w'' & Hw'' & Hitems & Htags & _).
    rewrite Hup in Hw''. injection Hw'' as <-.
    exists w', rec. split_and!; try done.
    intros Hone.
    pose proof (handle_one_record_per_item
                  (POST_item_tags item_id (VDict [("tag_ids", VList [a])])) w Hone)
      as Hone'.
    cbn [handle] in Hone'. by rewrite Hrun in Hone'.
Qed.

Lemma add_to_set_two (ta tb : ObjectId) :
  add_to_set (add_to_set [] [ta]) [tb]
  = if decide (tb = ta) then [ta] else [ta; tb].
Proof.
  unfold add_to_set. cbn [fold_left].
  destruct (decide (ta ∈ [])) as [Hin|_]; [by apply elem_of_nil in Hin|].
  cbn [app]. destruct (decide (tb = ta)) as [->|Hne].
  - rewrite decide_True; [done|]. by apply list_elem_of_singleton.
  - rewrite decide_False; [done|]. by intros ?%list_elem_of_singleton.
Qed.

(** C5.  A successful [associate] leaves for the item the tags it had
    together with the requested ones, the former in their place.  For a
    stored item and stored tags [a] and [b], where no item has two
    association records, [associate] with [a] and then with [b] leaves
    one association record for the item, which holds what the item had
    before, [a] and [b]: exactly [a] and [b] if it had nothing.  Every
    request keeps it that no item has two association records, as is the
    case in every state reached from the empty database. *)
Theorem associate_union_accumulating :
  (∀ item_id data (w : world ObjectId) r w',
     associate item_id data w = (Ok r, w') → snd r = 200 →
     ∃ i ts,
       ObjectId_of (VStr item_id) = Some i
       ∧ r = Associated str item_id ts
       ∧ (∀ t, t ∈ associated i (db w')
               ↔ t ∈ associated i (db w) ∨ t ∈ ts)
       ∧ associated i (db w) `prefix_of` associated i (db w'))
  ∧ (∀ (w : world ObjectId) item_id i a ta b tb,
       one_record_per_item (db w) →
       ObjectId_of (VStr item_id) = Some i →
       ObjectId_of a = Some ta →
       ObjectId_of b = Some tb →
       item_exists i (db w) →
       tag_exists ta (db w) →
       tag_exists tb (db w) →
       ∃ w1 w2 rec,
         associate item_id (tag_ids_of [a]) w
         = (Ok (Associated str item_id [ta]), w1)
         ∧ associate item_id (tag_ids_of [b]) w1
           = (Ok (Associated str item_id [tb]), w2)
         ∧ records_of i (db w2) = [rec]
         ∧ (∀ t, t ∈ tag_ids rec
                 ↔ t ∈ associated i (db w) ∨ t = ta ∨ t = tb)
         ∧ (associated i (db w) = [] →
            tag_ids rec = if decide (tb = ta) then [ta] else [ta; tb]))
  ∧ (∀ qs (w : world ObjectId),
       one_record_per_item (db w) →
       one_record_per_item (db (run qs w)))
  ∧ (∀ qs, one_record_per_item
             (db (run qs init))).
Proof.
  split_and!.
  - intros item_id data w r w' Hrun Hs.
    destruct (associate_success _ _ _ _ _ Hrun Hs)
      as (d & i & ts & -> & Hok & Hp & Hi & Hnd & Hall & -> & Hup).
    destruct (update_one_item_tags_spec i ts
                (noted (Find Tags) (noted (FindOne Items) w)))
      as (w'' & Hw'' & _ & _ & _ & Hassoc & _).
    rewrite Hup in Hw''. injection Hw'' as <-.
    apply parse_ids_Some in Hp as [Hpi _].
    exists i, ts. split_and!; try done.
    + intros t. rewrite Hassoc. apply elem_of_add_to_set.
    + rewrite Hassoc. cbn [noted db].
      destruct (add_to_set_extends ts (associated i (db w))) as [k ->].
      by apply prefix_app_r.
  - intros w item_id i a ta b tb Hone Hi Ha Hb Hitem Hta Htb.
    destruct (associate_one item_id i a ta w Hi Ha Hitem Hta)
      as (w1 & rec1 & Hrun1 & Hitems1 & Htags1 & Hl1 & Hrec1 & Hone1).
    destruct (associate_one item_id i b tb w1 Hi Hb)
      as (w2 & rec2 & Hrun2 & Hitems2 & Htags2 & Hl2 & Hrec2 & Hone2).
    { unfold item_exists. by rewrite Hitems1. }
    { unfold tag_exists. by rewrite Htags1. }
    exists w1, w2, rec2.
    assert (associated i (db w1) = tag_ids rec1) as Hassoc1
      by (unfold associated; by rewrite Hl1).
    split_and!; try done.
    + apply records_of_single; [|done]. by apply Hone2, Hone1.
    + intros t. rewrite Hrec2, Hassoc1, Hrec1, !elem_of_add_to_set,
        !list_elem_of_singleton. tauto.
    + intros Hnone. rewrite Hrec2, Hassoc1, Hrec1, Hnone.
      apply add_to_set_two.
  - apply run_invariant, handle_one_record_per_item.
  - intros qs. apply run_invariant; [apply handle_one_record_per_item|].
    apply NoDup_nil_2.
Qed.

(** ** Reading the tags of an item, creating items and tags *)

Lemma associated_nil_of_no_record i (d : Db ObjectId) :
  records_of i d = [] → associated i d = [].
Proof.
  unfold records_of, associated, lookup_item_tags. by intros ->.
Qed.

(** The answer for an item identifier that parses. *)
Lemma tagsFor_answer item_id i (w : world ObjectId) :
  ObjectId_of (VStr item_id) = Some i →
  fst (tagsFor item_id w)
  = if decide (associated i (db w) = [])
    then Ok (VList [], 200)
    else Ok (VList (externalized str
                      <$> filter (fun d => doc_oid d
                                           ∈ Some <$> associated i (db w))
                            (tags (db w))),
             200).
Proof.
  intros Hi. unfold get_tags_for_item, bind, ret, find_one_item_tags, find_in.
  rewrite Hi. unfold associated.
  destruct (lookup_item_tags i (item_tags (db w))) as [rec|];
    cbn [from_option]; [|by rewrite decide_True].
  destruct (tag_ids rec) as [|t l]; [by rewrite decide_True|].
  by rewrite decide_False.
Qed.

(** C6.  [tagsFor] answers [InvalidIdentifier] (400) exactly when
    [item_id] does not parse.  When it parses, the answer is the empty
    sequence with status 200 if the item has no association record or
    the record holds no tag; otherwise it is, with status 200, the stored
    tag documents whose identifier is in the record, each with its
    identifier turned into a string, and under referential integrity
    every identifier in the record has its document in the answer. *)
Theorem tags_for_item item_id (w : world ObjectId) :
  let r := fst (tagsFor item_id w) in
  (r = Ok InvalidItemId ↔ ObjectId_of (VStr item_id) = None)
  ∧ ∀ i, ObjectId_of (VStr item_id) = Some i →
      ((records_of i (db w) = [] ∨ associated i (db w) = []) →
       r = Ok (VList [], 200))
      ∧ (associated i (db w) ≠ [] →
         r = Ok (VList (externalized str
                          <$> filter (fun d => doc_oid d
                                           ∈ Some <$> associated i (db w))
                                (tags (db w))),
                 200))
      ∧ (referential_integrity (db w) →
         ∀ t, t ∈ associated i (db w) →
              ∃ d answer, d ∈ tags (db w)
                          ∧ doc_id d = VOid t
                          ∧ r = Ok (VList answer, 200)
                          ∧ externalized str d ∈ answer).
Proof.
  cbv zeta. destruct (ObjectId_of (VStr item_id)) as [i|] eqn:Hi.
  2: { split; [|by intros i]. unfold get_tags_for_item. by rewrite Hi. }
  rewrite (tagsFor_answer item_id i w Hi). split.
  { split; [|done]. by destruct (decide _). }
  intros i' [= <-]. split_and!.
  - intros [Hnone%associated_nil_of_no_record|Hnone]; by rewrite decide_True.
  - intros Hsome. by rewrite decide_False.
  - intros Hri t Ht.
    assert (associated i (db w) ≠ []) as Hne
      by (intros Hnil; rewrite Hnil in Ht; by apply elem_of_nil in Ht).
    rewrite decide_False by done.
    assert (tag_exists t (db w)) as Hex.
    { unfold associated in Ht.
      destruct (lookup_item_tags i (item_tags (db w))) as [rec|] eqn:Hl;
        cbn [from_option] in Ht; [|by apply elem_of_nil in Ht].
      apply lookup_item_tags_Some in Hl as [Hrec _]. by eapply Hri. }
    apply list_elem_of_fmap in Hex as (d & Heq & Hd). symmetry in Heq.
    exists d. eexists. split_and!; try done.
    apply list_elem_of_fmap_2. apply list_elem_of_filter. split; [|done].
    apply doc_oid_among. by exists t.
Qed.


(** Whatever the body, [create] answers [EmptyPayload] exactly when the
    body is false for Python, and then stores nothing. *)
Lemma empty_payload_iff_falsy (data : value ObjectId) (w : world ObjectId) :
  (fst (create_item data w) = Ok EmptyPayload
   ↔ truthy data = false)
  ∧ (fst (create_tag data w) = Ok EmptyPayload
     ↔ truthy data = false)
  ∧ (truthy data = false →
     snd (create_item data w) = w
     ∧ snd (create_tag data w) = w).
Proof.
  unfold create_item, create_tag, bind, ret, insert_one.
  destruct (truthy data) eqn:Ht; cbn [negb]; [|done].
  destruct data as [| | | | | |d|]; try done.
  destruct (bson_error _); [done|].
  by destruct (write_error (docs Items (db w)) _),
              (write_error (docs Tags (db w)) _).
Qed.

(** What [insert_one] does with a mapping. *)
Lemma insert_one_mapping c d (w : world ObjectId) :
  let doc := document_of d (new_ObjectId (generated w)) in
  let n := generated_for d (generated w) in
  insert_one c (VDict d) w
  = match bson_error doc with
    | Some e => (Raise e, mkWorld (db w) n (journal w))
    | None =>
        match write_error (docs c (db w)) doc with
        | Some e => (Raise e, mkWorld (db w) n (logged (InsertOne c) w))
        | None =>
            (Ok (doc_id doc),
             mkWorld (set_docs c (docs c (db w) ++ [doc]) (db w)) n
                     (logged (InsertOne c) w))
        end
    end.
Proof. done. Qed.


(** ** A tag named twice *)

(** With a mapping for body, [TagsNotFound] is the answer exactly when
    the shape and the identifiers are good, the item is stored, and the
    request names a tag that is not stored or names a tag twice. *)
Lemma tags_not_found_iff item_id d (w : world ObjectId) :
  fst (associate item_id (VDict d) w) = Ok TagsNotFound
  ↔ ∃ i ts, ¬ bad_tag_ids d
            ∧ parse_ids ObjectId_of item_id (entries d) = Some (i, ts)
            ∧ item_exists i (db w)
            ∧ ¬ (NoDup ts ∧ ∀ t, t ∈ ts → tag_exists t (db w)).
Proof.
  run_associate item_id d w r w' Hout. split.
  - intros ->. inversion Hout; subst. by exists i, ts.
  - intros (i & ts & Hok & Hp & Hi & Hmiss).
    destruct Hout as [Hb|Hok2 Hbad|i2 ts2 Hok2 Hp2 Hno|i2 ts2 Hok2 Hp2 Hi2 Hmiss2
                     |i2 ts2 w2 Hok2 Hp2 Hi2 Hnd2 Hall2 Hup2].
    + done.
    + by destruct (parsed_not_bad _ _ _ Hp).
    + assert (i2 = i) as -> by congruence. done.
    + done.
    + assert (i2 = i ∧ ts2 = ts) as [-> ->] by (split; congruence).
      by destruct Hmiss.
Qed.

(** C1.  The count behind the existence check is taken on the list of
    requested identifiers, not on the set of them: a request that names
    a stored tag twice, for a stored item, is answered [TagsNotFound]
    although every tag it names is stored. *)
Theorem duplicate_of_stored_tag_not_found item_id i a ta (w : world ObjectId) :
  ObjectId_of (VStr item_id) = Some i →
  ObjectId_of a = Some ta →
  item_exists i (db w) →
  tag_exists ta (db w) →
  fst (associate item_id (tag_ids_of [a; a]) w) = Ok TagsNotFound.
Proof.
  intros Hi Ha Hitem Htag. unfold tag_ids_of. apply tags_not_found_iff.
  exists i, [ta; ta]. split_and!.
  - apply tag_ids_of_good.
  - apply parse_ids_Some. rewrite entries_tag_ids. split; [done|].
    cbn. by rewrite Ha.
  - done.
  - intros [Hnd _]. apply NoDup_cons in Hnd as [Hnin _].
    apply Hnin. by left.
Qed.

End Properties.

(** * The properties on the reference instance *)

(** The scenario of the specification: an item and a tag are created,
    the tag is associated to the item, and [tagsFor] gives the tag back
    with its identifier as a string. *)
Example scenario :
  let w0 : world N := init in
  let (r1, w1) := Reference.handle (POST_items book) w0 in
  let (r2, w2) := Reference.handle (POST_tags fiction) w1 in
  let (r3, w3) :=
    Reference.handle (POST_item_tags book_id (tag_ids_of [VStr fiction_id])) w2 in
  let (r4, w4) := Reference.handle (GET_item_tags book_id) w3 in
  r1 = Ok (VDict [("inserted_id", VStr "000000000000000000000000")], 201)
  ∧ r2 = Ok (VDict [("inserted_id", VStr "000000000000000000000001")], 200)
  ∧ r3 = Ok (VDict [("message", VStr "Tags associated with item");
                    ("item_id", VStr "000000000000000000000000");
                    ("tag_ids", VList [VStr "000000000000000000000001"])],
             200)
  ∧ r4 = Ok (VList [VDict [("_id", VStr "000000000000000000000001");
                           ("name", VStr "fiction")]],
             200)
  ∧ item_tags (db w4) = [ItemTag 2%N 0%N [1%N]].
Proof. vm_compute. repeat split. Qed.

(** The duplicate that C1 is about, in the shop: the book and the tag
    "fiction" are stored, and the request that names the tag twice is
    answered 404. *)
Lemma duplicate_of_stored_tag_not_found_witness :
  fst (Reference.associate book_id
         (tag_ids_of [VStr fiction_id; VStr fiction_id]) shop)
  = Ok TagsNotFound.
Proof.
  apply (duplicate_of_stored_tag_not_found Reference.ObjectId_of Reference.str
           Reference.new_ObjectId book_id 0%N (VStr fiction_id) 1%N shop).
  - vm_compute. reflexivity.
  - vm_compute. reflexivity.
  - vm_compute. repeat constructor.
  - vm_compute. repeat constructor.
Defined.

(** C3, as stated, fails on the code.  A request whose [item_id] does
    not parse and a request with an entry of [tag_ids] that does not
    parse get the same answer, so that no reading of the answer tells
    which field failed. *)
Lemma invalid_identifier_names_no_field :
  ¬ ∃ report,
      reports_failed_field Reference.ObjectId_of Reference.str
        Reference.new_ObjectId report.
Proof.
  intros [report Hrep].
  pose proof (Hrep init "not-a-valid-id"
                [("tag_ids", VList [VStr fiction_id])] InvalidIdentifier) as HA.
  pose proof (Hrep init book_id
                [("tag_ids", VList [VStr "not-a-valid-id"])] InvalidIdentifier) as HB.
  destruct (report InvalidIdentifier).
  - assert (Reference.ObjectId_of (VStr book_id) = None) as Hbook; [|done].
    apply HB.
    + vm_compute. reflexivity.
    + apply tag_ids_of_good.
    + exists tag_ids_field, (VStr "not-a-valid-id"). split; [by left|done].
  - destruct HA as (v & Hv & Hnone).
    + vm_compute. reflexivity.
    + apply tag_ids_of_good.
    + by exists item_id_field.
    + rewrite entries_tag_ids in Hv. apply list_elem_of_singleton in Hv as ->.
      done.
Qed.

(** The order of the checks on four requests: no [tag_ids] and a bad
    [item_id]; a bad [item_id]; an item that is not stored, with a tag
    that is not stored; a stored item with a tag that is not stored. *)
Lemma associate_check_order_witness :
  (fst (Reference.associate "not-a-valid-id" (VDict []) init) = Ok InvalidInput
   ∧ calls_between init
       (snd (Reference.associate "not-a-valid-id" (VDict []) init)) [])
  ∧ (fst (Reference.associate "not-a-valid-id"
            (VDict [("tag_ids", VList [VStr fiction_id])]) init)
     = Ok InvalidIdentifier)
  ∧ (fst (Reference.associate poetry_id
            (VDict [("tag_ids", VList [VStr book_id])]) shop)
     = Ok ItemNotFound)
  ∧ (fst (Reference.associate book_id
            (VDict [("tag_ids", VList [VStr book_id])]) shop)
     = Ok TagsNotFound
     ∧ calls_between shop
         (snd (Reference.associate book_id
                 (VDict [("tag_ids", VList [VStr book_id])]) shop))
         [FindOne Items; Find Tags]).
Proof.
  split; [|split; [|split]].
  - apply (associate_check_order Reference.ObjectId_of Reference.str
             Reference.new_ObjectId "not-a-valid-id" [] init).
    left. reflexivity.
  - apply (associate_check_order Reference.ObjectId_of Reference.str
             Reference.new_ObjectId "not-a-valid-id"
             [("tag_ids", VList [VStr fiction_id])] init).
    + apply tag_ids_of_good.
    + exists item_id_field. reflexivity.
  - pose proof (associate_check_order Reference.ObjectId_of Reference.str
                  Reference.new_ObjectId poetry_id
                  [("tag_ids", VList [VStr book_id])] shop) as (_ & _ & Hrest).
    destruct (Hrest 2%N [0%N]) as [Hno _].
    + apply tag_ids_of_good.
    + vm_compute. reflexivity.
    + vm_compute. reflexivity.
    + apply Hno. vm_compute. intros Hin.
      repeat (apply elem_of_cons in Hin as [Hin|Hin]; [discriminate Hin|]).
      by apply elem_of_nil in Hin.
  - pose proof (associate_check_order Reference.ObjectId_of Reference.str
                  Reference.new_ObjectId book_id
                  [("tag_ids", VList [VStr book_id])] shop) as (_ & _ & Hrest).
    destruct (Hrest 0%N [0%N]) as [_ Hmiss].
    + apply tag_ids_of_good.
    + vm_compute. reflexivity.
    + vm_compute. reflexivity.
    + apply Hmiss.
      * vm_compute. repeat constructor.
      * exists 0%N. split; [by left|]. vm_compute. intros Hin.
        repeat (apply elem_of_cons in Hin as [Hin|Hin]; [discriminate Hin|]).
        by apply elem_of_nil in Hin.
Defined.

(** The tag "fiction" associated to the book, twice. *)
Lemma associate_idempotent_witness :
  ∃ w2, Reference.associate book_id (tag_ids_of [VStr fiction_id]) tagged
        = (Ok (Associated Reference.str book_id [1%N]), w2)
        ∧ db w2 = db tagged.
Proof.
  apply (associate_idempotent Reference.ObjectId_of Reference.str
           Reference.new_ObjectId book_id (tag_ids_of [VStr fiction_id]) shop).
  - vm_compute. reflexivity.
  - reflexivity.
Defined.

(** "fiction" and then "poetry" associated to the book. *)
Lemma associate_union_accumulating_witness :
  ∃ w1 w2 rec,
    Reference.associate book_id (tag_ids_of [VStr fiction_id]) shop
    = (Ok (Associated Reference.str book_id [1%N]), w1)
    ∧ Reference.associate book_id (tag_ids_of [VStr poetry_id]) w1
      = (Ok (Associated Reference.str book_id [2%N]), w2)
    ∧ records_of 0%N (db w2) = [rec]
    ∧ tag_ids rec = [1%N; 2%N].
Proof.
  destruct (associate_union_accumulating Reference.ObjectId_of Reference.str
              Reference.new_ObjectId Reference.bson_error Reference.write_error)
    as (_ & Hab & _).
  destruct (Hab shop book_id 0%N (VStr fiction_id) 1%N (VStr poetry_id) 2%N)
    as (w1 & w2 & rec & H1 & H2 & Hrec & _ & Hfresh).
  - vm_compute. constructor.
  - vm_compute. reflexivity.
  - vm_compute. reflexivity.
  - vm_compute. reflexivity.
  - vm_compute. repeat constructor.
  - vm_compute. repeat constructor.
  - vm_compute. repeat constructor.
  - exists w1, w2, rec. split; [exact H1|]. split; [exact H2|].
    split; [exact Hrec|]. apply Hfresh. vm_compute. reflexivity.
Defined.

(** The tags of the book once "fiction" is associated to it. *)
Lemma tags_for_item_witness :
  fst (Reference.tagsFor book_id tagged)
  = Ok (VList [VDict [("_id", VStr fiction_id); ("name", VStr "fiction")]], 200).
Proof.
  destruct (tags_for_item Reference.ObjectId_of Reference.str book_id tagged)
    as (_ & Hparsed).
  destruct (Hparsed 0%N) as (_ & Hsome & _).
  - vm_compute. reflexivity.
  - unfold Reference.tagsFor. rewrite Hsome.
    + vm_compute. reflexivity.
    + vm_compute. discriminate.
Defined.



(** The tag in the record of the book is a stored tag. *)
Lemma referential_integrity_invariant_witness : tag_exists 1%N (db tagged).
Proof.
  destruct (referential_integrity_invariant Reference.ObjectId_of Reference.str
              Reference.new_ObjectId Reference.bson_error Reference.write_error)
    as (_ & Hri & _).
  apply (Hri [POST_items book; POST_tags fiction; POST_tags poetry;
              POST_item_tags book_id (tag_ids_of [VStr fiction_id])]
           (ItemTag 3%N 0%N [1%N]) 1%N).
  - vm_compute. repeat constructor.
  - vm_compute. repeat constructor.
Defined.

(** A request refused with [TagsNotFound] leaves the shop as it was. *)
Lemma associate_error_atomic_witness :
  db (snd (Reference.associate book_id (tag_ids_of [VStr book_id]) shop))
  = db shop.
Proof.
  destruct (associate_error_atomic Reference.ObjectId_of Reference.str
              Reference.new_ObjectId book_id (tag_ids_of [VStr book_id]) shop)
    as (Herr & _).
  apply (Herr TagsNotFound).
  - vm_compute. reflexivity.
  - right. right. right. reflexivity.
Defined.

(** Associating "fiction" to the book touches neither the items, nor
    the tags, nor the records of other items. *)
Lemma frame_of_reads_and_associate_witness :
  ∃ i, Reference.ObjectId_of (VStr book_id) = Some i
       ∧ items (db tagged) = items (db shop)
       ∧ tags (db tagged) = tags (db shop)
       ∧ records_of_others i (db tagged) = records_of_others i (db shop).
Proof.
  destruct (frame_of_reads_and_associate Reference.ObjectId_of Reference.str
              Reference.new_ObjectId) as (_ & _ & _ & Hassoc).
  apply (Hassoc book_id (tag_ids_of [VStr fiction_id]) shop
           (Associated Reference.str book_id [1%N]) tagged).
  - vm_compute. reflexivity.
  - reflexivity.
Defined.

(** * More properties of the handlers *)

Section More.
Context {ObjectId : Type} `{Countable ObjectId}.
Variable ObjectId_of : value ObjectId → option ObjectId.
Variable str : value ObjectId → string.
Variable new_ObjectId : nat → ObjectId.
Variable bson_error : document ObjectId → option exn.
Variable write_error : list (document ObjectId) → document ObjectId → option exn.

Local Abbreviation associate :=
  (create_item_tag_association ObjectId_of str new_ObjectId).
Local Abbreviation tagsFor := (get_tags_for_item ObjectId_of str).
Local Abbreviation serve :=
  (handle ObjectId_of str new_ObjectId bson_error write_error).
Local Abbreviation serve_all :=
  (run ObjectId_of str new_ObjectId bson_error write_error).
Local Abbreviation create_item :=
  (create_item str new_ObjectId bson_error write_error).
Local Abbreviation create_tag :=
  (create_tag str new_ObjectId bson_error write_error).
Local Abbreviation insert_one :=
  (insert_one new_ObjectId bson_error write_error).

(** ** Creating and listing *)

(** X1.  The identifier [create_item] answers with is the [_id], as a
    string, under which [list_items] then shows the item.  For a mapping
    that is not empty, of which the driver makes the document [doc] (under
    a generated identifier, or under the [_id] of the mapping when it has
    one): when neither the driver nor the server refuses [doc], the answer
    is the string of its [_id] and the listing after the creation is the
    listing before it followed by [doc], with that string for [_id];
    when one of them refuses it, the handler raises and the listing is as
    it was. *)
Theorem created_item_is_listed f d (w : world ObjectId) :
  let doc := document_of (f :: d) (new_ObjectId (generated w)) in
  let w1 := snd (create_item (VDict (f :: d)) w) in
  ∃ before,
    fst (list_items str w) = Ok (VList before, 200)
    ∧ (bson_error doc = None → write_error (items (db w)) doc = None →
       fst (create_item (VDict (f :: d)) w)
       = Ok (VDict [("inserted_id", VStr (str (doc_id doc)))], 201)
       ∧ fst (list_items str w1)
         = Ok (VList (before
                      ++ [VDict (("_id", VStr (str (doc_id doc)))
                                 :: doc_fields doc)]),
               200))
    ∧ (¬ (bson_error doc = None ∧ write_error (items (db w)) doc = None) →
       (∃ e, fst (create_item (VDict (f :: d)) w) = Raise e)
       ∧ fst (list_items str w1) = Ok (VList before, 200)).
Proof.
  cbv zeta. exists (externalized str <$> items (db w)).
  unfold list_items, create_item, bind, ret, find.
  cbn [truthy negb]. rewrite insert_one_mapping. cbn [docs].
  split_and!; [done| |].
  - intros -> ->. cbn [fst snd set_docs db items noted].
    split; [done|]. by rewrite fmap_app.
  - intros Hrefused. destruct (bson_error _) as [e|]; [by eauto|].
    destruct (write_error _ _) as [e|]; [by eauto|]. by destruct Hrefused.
Qed.

(** X2.  The identifier [create_tag] answers with is the string of the
    [_id] under which [list_tags] then shows the tag, but the listing
    holds the [_id] itself (an [ObjectId], when it was generated), not
    its string.  For a mapping that is not empty, of which the driver
    makes the document [doc]: when neither the driver nor the server
    refuses [doc], the answer is the string of its [_id] and the listing
    after the creation is the listing before it followed by [doc]; when
    one of them refuses it, the handler raises and the listing is as it
    was. *)
Theorem created_tag_is_listed f d (w : world ObjectId) :
  let doc := document_of (f :: d) (new_ObjectId (generated w)) in
  let w1 := snd (create_tag (VDict (f :: d)) w) in
  ∃ before,
    fst (list_tags w) = Ok (VList before, 200)
    ∧ (bson_error doc = None → write_error (tags (db w)) doc = None →
       fst (create_tag (VDict (f :: d)) w)
       = Ok (VDict [("inserted_id", VStr (str (doc_id doc)))], 200)
       ∧ fst (list_tags w1)
         = Ok (VList (before ++ [VDict (("_id", doc_id doc) :: doc_fields doc)]),
               200))
    ∧ (¬ (bson_error doc = None ∧ write_error (tags (db w)) doc = None) →
       (∃ e, fst (create_tag (VDict (f :: d)) w) = Raise e)
       ∧ fst (list_tags w1) = Ok (VList before, 200)).
Proof.
  cbv zeta. exists (doc_dict <$> tags (db w)).
  unfold list_tags, create_tag, bind, ret, find.
  cbn [truthy negb]. rewrite insert_one_mapping. cbn [docs].
  split_and!; [done| |].
  - intros -> ->. cbn [fst snd set_docs db tags noted].
    split; [done|]. by rewrite fmap_app.
  - intros Hrefused. destruct (bson_error _) as [e|]; [by eauto|].
    destruct (write_error _ _) as [e|]; [by eauto|]. by destruct Hrefused.
Qed.

Lemma truthy_false_iff (v : value ObjectId) : truthy v = false ↔ falsy v.
Proof.
  unfold falsy. split.
  - destruct v as [|[|]|n|m e|[|c s]|[|x l]|[|x l]|o]; cbn [truthy]; try done.
    + by left.
    + by right; left.
    + intros ->%negb_false_iff%Z.eqb_eq. by do 2 right; left.
    + intros ->%negb_false_iff%Z.eqb_eq. do 3 right; left. by eexists.
    + by do 4 right; left.
    + by do 5 right; left.
    + by do 6 right.
  - intros [->|[->|[->|[[e ->]|[->|[->| ->]]]]]]; done.
Qed.

(** X3.  [create_item] and [create_tag] answer "No data provided" (400)
    exactly for a body that is false for Python: not only the body
    [null] and the empty mapping, but also [false], [0], [0.0], the empty
    string and the empty list; and then they do not call the storage
    layer. *)
Theorem create_refuses_falsy_bodies (data : value ObjectId) (w : world ObjectId) :
  (fst (create_item data w) = Ok EmptyPayload ↔ falsy data)
  ∧ (fst (create_tag data w) = Ok EmptyPayload ↔ falsy data)
  ∧ (falsy data →
     snd (create_item data w) = w
     ∧ snd (create_tag data w) = w).
Proof.
  rewrite <- truthy_false_iff.
  unfold create_item, create_tag, bind, ret.
  destruct (truthy data) eqn:Ht; cbn [negb]; [|done].
  destruct data as [| | | | | |d|]; try done.
  rewrite !insert_one_mapping.
  destruct (bson_error _); [done|].
  by destruct (write_error (docs Items (db w)) _),
              (write_error (docs Tags (db w)) _).
Qed.

(** ** What a request does to the storage layer *)

(** The answer of [tagsFor] and the world it leaves: the identifier does
    not parse, the item has no tag, or its tags are fetched. *)
Lemma tagsFor_cases item_id (w : world ObjectId) :
  (ObjectId_of (VStr item_id) = None
   ∧ tagsFor item_id w = (Ok InvalidItemId, w))
  ∨ (∃ i, ObjectId_of (VStr item_id) = Some i
          ∧ associated i (db w) = []
          ∧ tagsFor item_id w = (Ok (VList [], 200), noted FindOneItemTags w))
  ∨ (∃ i, ObjectId_of (VStr item_id) = Some i
          ∧ associated i (db w) ≠ []
          ∧ tagsFor item_id w
            = (Ok (VList (externalized str
                            <$> filter (fun d => doc_oid d
                                           ∈ Some <$> associated i (db w))
                                  (tags (db w))), 200),
               noted (Find Tags) (noted FindOneItemTags w))).
Proof.
  unfold get_tags_for_item, bind, ret, find_one_item_tags, find_in, associated.
  destruct (ObjectId_of (VStr item_id)) as [i|]; [right|by left].
  destruct (lookup_item_tags i (item_tags (db w))) as [rec|] eqn:Hl.
  - destruct (tag_ids rec) as [|t l] eqn:Hrec.
    + left. exists i. rewrite Hl. cbn [from_option]. by rewrite Hrec.
    + right. exists i. rewrite Hl. cbn [from_option]. by rewrite Hrec.
  - left. exists i. by rewrite Hl.
Qed.

(** The answer of [associate] and the world it leaves, whatever the
    body. *)
Lemma associate_cases item_id data (w : world ObjectId) :
  associate item_id data w = (Raise AttributeError, w)
  ∨ ∃ d, data = VDict d
         ∧ outcome ObjectId_of str new_ObjectId item_id d w
             (fst (associate item_id data w)) (snd (associate item_id data w)).
Proof.
  destruct (mapping_or_not data) as [[d ->]|Hnd].
  - right. exists d. split; [done|]. apply associate_outcome.
    apply surjective_pairing.
  - left. by apply associate_not_a_mapping.
Qed.

(** X4.  A request that is not answered with success leaves no trace in
    the database: after any answer other than 200 or 201, and after an
    uncaught exception, the three collections are as they were.  A
    handler that raises has not called the server, or has called it once,
    with the insertion that the server refused. *)
Theorem failed_request_leaves_no_trace q (w : world ObjectId) :
  let o := fst (serve q w) in
  let w' := snd (serve q w) in
  (∀ r, o = Ok r → ¬ succeeded r → db w' = db w)
  ∧ (∀ e, o = Raise e →
          db w' = db w
          ∧ (calls_between w w' []
             ∨ ∃ c data, q = match c with
                               | Items => POST_items data
                               | Tags => POST_tags data
                               end
                         ∧ calls_between w w' [InsertOne c])).
Proof.
  assert (∀ w1 : world ObjectId, journal w1 = journal w →
            calls_between w w1 []) as Hnone.
  { intros w1 Hj. unfold calls_between. by rewrite app_nil_r. }
  cbv zeta. destruct q as [|data| |data| |item_id data|item_id]; cbn [handle].
  - done.
  - unfold create_item, bind, ret.
    destruct (truthy data); cbn [negb]; [|done].
    destruct data as [| | | | | |d|];
      try (split; [done|]; intros ? _; split; [done|]; left; by apply Hnone).
    rewrite insert_one_mapping.
    destruct (bson_error _) as [e|].
    { split; [done|]. intros ? _. split; [done|]. left. by apply Hnone. }
    destruct (write_error _ _) as [e|]; cbn [fst snd]; split; try done.
    + intros ? _. split; [done|]. right. by exists Items, (VDict d).
    + intros r [= <-] Hfail. destruct Hfail. by right.
  - done.
  - unfold create_tag, bind, ret.
    destruct (truthy data); cbn [negb]; [|done].
    destruct data as [| | | | | |d|];
      try (split; [done|]; intros ? _; split; [done|]; left; by apply Hnone).
    rewrite insert_one_mapping.
    destruct (bson_error _) as [e|].
    { split; [done|]. intros ? _. split; [done|]. left. by apply Hnone. }
    destruct (write_error _ _) as [e|]; cbn [fst snd]; split; try done.
    + intros ? _. split; [done|]. right. by exists Tags, (VDict d).
    + intros r [= <-] Hfail. destruct Hfail. by left.
  - done.
  - destruct (associate_cases item_id data w) as [->|(d & -> & Hout)].
    { split; [done|]. intros e _. split; [done|]. left. by apply Hnone. }
    destruct (associate item_id (VDict d) w) as [o w'].
    cbn [fst snd] in *.
    destruct Hout as [Hb|Hok Hbad|i ts Hok Hp Hno|i ts Hok Hp Hi Hmiss
                     |i ts w' Hok Hp Hi Hnd Hall Hup]; try done.
    split; [|done]. intros r [= <-] Hfail. destruct Hfail. by left.
  - destruct (tagsFor_cases item_id w)
      as [[_ ->]|[(i & _ & _ & ->)|(i & _ & _ & ->)]]; done.
Qed.

Lemma reads_only (l : list access) :
  Forall (fun a => ¬ is_write a) l → one_write_at_most l.
Proof. by left. Qed.

(** X5.  A request makes at most three calls to the storage layer, of
    which at most one writes, and a call that writes is the last one:
    no request reads after it has written, and no request writes
    twice. *)
Theorem one_write_per_request q (w : world ObjectId) :
  ∃ calls, calls_between w (snd (serve q w)) calls
           ∧ one_write_at_most calls
           ∧ length calls ≤ 3.
Proof.
  assert (∀ w1 : world ObjectId, journal w1 = journal w →
            ∃ calls, calls_between w w1 calls ∧ one_write_at_most calls
                     ∧ length calls ≤ 3) as Hnone.
  { intros w1 Hj. exists []. unfold calls_between. rewrite app_nil_r.
    split_and!; [done|by left|cbn; lia]. }
  assert (∀ a, ¬ is_write a →
            ∃ calls, calls_between w (noted a w) calls
                     ∧ one_write_at_most calls ∧ length calls ≤ 3) as Hread.
  { intros a Ha. exists [a]. split_and!; [done| |cbn; lia].
    left. by repeat constructor. }
  assert (∀ a b, ¬ is_write a → ¬ is_write b →
            ∃ calls, calls_between w (noted b (noted a w)) calls
                     ∧ one_write_at_most calls ∧ length calls ≤ 3) as Hreads.
  { intros a b Ha Hb. exists [a; b]. split_and!; [| |cbn; lia].
    - unfold calls_between, noted, logged. cbn [journal].
      by rewrite <- app_assoc.
    - left. repeat constructor; done. }
  destruct q as [|data| |data| |item_id data|item_id]; cbn [handle].
  - by apply Hnone.
  - unfold create_item, bind, ret.
    destruct (truthy data); cbn [negb]; [|by apply Hnone].
    destruct data as [| | | | | |d|]; try (by apply Hnone).
    rewrite insert_one_mapping.
    destruct (bson_error _); [by apply Hnone|].
    assert (∃ calls, calls_between w
                       (mkWorld (db w) (generated w) (logged (InsertOne Items) w))
                       calls
                     ∧ one_write_at_most calls ∧ length calls ≤ 3)
      as (calls & Hcalls & Hone & Hlen).
    { exists [InsertOne Items]. split_and!; [done| |cbn; lia].
      right. exists [], (InsertOne Items). by split_and!. }
    exists calls. by destruct (write_error _ _).
  - apply (Hread (Find Items)). cbn. tauto.
  - unfold create_tag, bind, ret.
    destruct (truthy data); cbn [negb]; [|by apply Hnone].
    destruct data as [| | | | | |d|]; try (by apply Hnone).
    rewrite insert_one_mapping.
    destruct (bson_error _); [by apply Hnone|].
    assert (∃ calls, calls_between w
                       (mkWorld (db w) (generated w) (logged (InsertOne Tags) w))
                       calls
                     ∧ one_write_at_most calls ∧ length calls ≤ 3)
      as (calls & Hcalls & Hone & Hlen).
    { exists [InsertOne Tags]. split_and!; [done| |cbn; lia].
      right. exists [], (InsertOne Tags). by split_and!. }
    exists calls. by destruct (write_error _ _).
  - apply (Hread (Find Tags)). cbn. tauto.
  - destruct (associate_cases item_id data w) as [->|(d & -> & Hout)];
      [by apply Hnone|].
    destruct (associate item_id (VDict d) w) as [o w'].
    cbn [fst snd] in *.
    destruct Hout as [Hb|Hok Hbad|i ts Hok Hp Hno|i ts Hok Hp Hi Hmiss
                     |i ts w' Hok Hp Hi Hnd Hall Hup].
    + by apply Hnone.
    + by apply Hnone.
    + apply (Hread (FindOne Items)). cbn. tauto.
    + apply (Hreads (FindOne Items) (Find Tags)); cbn; tauto.
    + destruct (update_one_item_tags_spec new_ObjectId i ts
                  (noted (Find Tags) (noted (FindOne Items) w)))
        as (w'' & Hw'' & _ & _ & Hj & _).
      rewrite Hup in Hw''. injection Hw'' as <-.
      exists [FindOne Items; Find Tags; UpdateOneItemTags].
      split_and!; [| |cbn; lia].
      * unfold calls_between. rewrite Hj. unfold noted, logged.
        cbn [journal]. by rewrite <- !app_assoc.
      * right. exists [FindOne Items; Find Tags], UpdateOneItemTags.
        split_and!; try done. repeat constructor; cbn; tauto.
  - destruct (tagsFor_cases item_id w)
      as [[_ ->]|[(i & _ & _ & ->)|(i & _ & _ & ->)]]; cbn [snd].
    + by apply Hnone.
    + apply (Hread FindOneItemTags). cbn. tauto.
    + apply (Hreads FindOneItemTags (Find Tags)); cbn; tauto.
Qed.

(** X6.  [associate] answers 200 exactly when the body is a mapping
    whose [tag_ids] is a non-empty list, [item_id] and every entry
    parse, the item is stored, every tag named is stored, and no tag is
    named twice; the answer then gives [item_id] back as it was sent and
    the tag identifiers as the strings of what they were parsed to. *)
Theorem associate_succeeds_iff item_id data (w : world ObjectId) r :
  (fst (associate item_id data w) = Ok r ∧ snd r = 200)
  ↔ ∃ d i ts,
      data = VDict d
      ∧ ¬ bad_tag_ids d
      ∧ ObjectId_of (VStr item_id) = Some i
      ∧ mapM ObjectId_of (entries d) = Some ts
      ∧ item_exists i (db w)
      ∧ NoDup ts
      ∧ (∀ t, t ∈ ts → tag_exists t (db w))
      ∧ r = Associated str item_id ts.
Proof.
  split.
  - intros [Hr Hs].
    destruct (associate item_id data w) as [o w'] eqn:Hrun.
    cbn [fst] in Hr. subst o.
    destruct (associate_success _ _ _ _ _ _ _ _ Hrun Hs)
      as (d & i & ts & -> & Hok & Hp & Hi & Hnd & Hall & -> & _).
    apply parse_ids_Some in Hp as [Hpi Hpts].
    by exists d, i, ts.
  - intros (d & i & ts & -> & Hok & Hpi & Hpts & Hi & Hnd & Hall & ->).
    destruct (associate_succeeds ObjectId_of str new_ObjectId
                item_id d w i ts) as (w' & Hrun & _); try done.
    + by apply parse_ids_Some.
    + by rewrite Hrun.
Qed.

(** ** What the association records always look like *)

Lemma update_first_records oid new (l l' : list (item_tag ObjectId)) r' :
  update_first oid new l = Some l' → r' ∈ l' →
  r' ∈ l
  ∨ ∃ r, r ∈ l ∧ item_id r' = oid
         ∧ tag_ids r' = add_to_set (tag_ids r) new.
Proof.
  revert l'. induction l as [|r l IH]; intros l'; [done|].
  cbn [update_first]. destruct (decide (item_id r = oid)) as [Heq|Hne].
  - intros [= <-] [->|Hin]%elem_of_cons.
    + right. exists r. split_and!; [by left|done|done].
    + left. by right.
  - destruct (update_first oid new l) as [k|] eqn:Hk; [|done].
    intros [= <-] [->|Hin]%elem_of_cons; [left; by left|].
    destruct (IH k eq_refl Hin) as [?|(r0 & ? & ? & ?)].
    + left. by right.
    + right. exists r0. split_and!; [by right|done|done].
Qed.

(** A record found after the upsert was there before, or is the record
    of the item with the new tags added to the tags it had, if any. *)
Lemma update_one_records oid new (w w' : world ObjectId) r' :
  update_one_item_tags new_ObjectId oid new w = (Ok tt, w') →
  r' ∈ item_tags (db w') →
  r' ∈ item_tags (db w)
  ∨ (item_id r' = oid
     ∧ ∃ old, tag_ids r' = add_to_set old new
              ∧ (old = [] ∨ ∃ r, r ∈ item_tags (db w) ∧ tag_ids r = old)).
Proof.
  unfold update_one_item_tags.
  destruct (update_first oid new (item_tags (db w))) as [l'|] eqn:Hup.
  - intros [= <-]. cbn [db item_tags]. intros Hin.
    destruct (update_first_records _ _ _ _ _ Hup Hin) as [?|(r & ? & ? & ?)];
      [by left|right].
    split; [done|]. exists (tag_ids r). split; [done|right]. by exists r.
  - intros [= <-]. cbn [db item_tags].
    intros [Hin| ->%list_elem_of_singleton]%elem_of_app; [by left|right].
    split; [done|]. exists []. split; [done|by left].
Qed.

Lemma good_entries (d : list (string * value ObjectId)) :
  ¬ bad_tag_ids d → entries d ≠ [].
Proof.
  unfold bad_tag_ids, entries, is_sequence. rewrite dict_get_field_of.
  destruct (field_of d "tag_ids") as [v|]; cbn [from_option id]; [|tauto].
  intros Hok. destruct v as [| | | | |[|x l]| |]; cbn [elements]; try done.
  all: destruct Hok; right; try (by right).
  all: left; eexists; split; [done|]; by intros [? ?].
Qed.

(** A call of [associate] leaves the database alone or upserts, for a
    stored item, a list of stored tags that is not empty and names no
    tag twice. *)
Lemma associate_writes item_id data (w : world ObjectId) :
  db (snd (associate item_id data w)) = db w
  ∨ ∃ i ts, item_exists i (db w)
            ∧ ts ≠ []
            ∧ NoDup ts
            ∧ (∀ t, t ∈ ts → tag_exists t (db w))
            ∧ update_one_item_tags new_ObjectId i ts
                (noted (Find Tags) (noted (FindOne Items) w))
              = (Ok tt, snd (associate item_id data w)).
Proof.
  destruct (associate_cases item_id data w) as [->|(d & -> & Hout)];
    [by left|].
  destruct (associate item_id (VDict d) w) as [o w'].
  cbn [fst snd] in *.
  destruct Hout as [Hb|Hok Hbad|i ts Hok Hp Hno|i ts Hok Hp Hi Hmiss
                   |i ts w' Hok Hp Hi Hnd Hall Hup]; try (by left).
  right. exists i, ts. split_and!; try done.
  apply parse_ids_Some in Hp as [_ Hts]. apply mapM_Some in Hts.
  intros ->. apply Forall2_nil_inv_r in Hts. by apply good_entries in Hok.
Qed.

Lemma item_exists_prefix i (d d' : Db ObjectId) :
  items d `prefix_of` items d' → item_exists i d → item_exists i d'.
Proof.
  unfold item_exists. intros [k ->]. rewrite fmap_app, elem_of_app. by left.
Qed.

Lemma add_to_set_not_nil (new l : list ObjectId) :
  new ≠ [] → add_to_set l new ≠ [].
Proof.
  destruct new as [|x new]; [done|]. intros _ Hnil.
  assert (x ∈ add_to_set l (x :: new)) as Hin
    by (apply elem_of_add_to_set; right; by left).
  rewrite Hnil in Hin. by apply elem_of_nil in Hin.
Qed.

(** What a request does to the records: none but [associate] touches
    them, and [associate] at most upserts as in [associate_writes]. *)
Lemma serve_records q (w : world ObjectId) :
  let w' := snd (serve q w) in
  items (db w) `prefix_of` items (db w')
  ∧ tags (db w) `prefix_of` tags (db w')
  ∧ (item_tags (db w') = item_tags (db w)
     ∨ ∃ i ts, item_exists i (db w)
               ∧ ts ≠ []
               ∧ NoDup ts
               ∧ update_one_item_tags new_ObjectId i ts
                   (noted (Find Tags) (noted (FindOne Items) w))
                 = (Ok tt, w')).
Proof.
  cbv zeta.
  pose proof (handle_effect ObjectId_of str new_ObjectId bson_error write_error q w)
    as (Hitems & Htags & Hsame).
  split_and!; [done|done|].
  destruct q as [|data| |data| |item_id data|item_id];
    try (left; by apply Hsame).
  cbn [handle].
  destruct (associate_writes item_id data w)
    as [->|(i & ts & ? & ? & ? & _ & ?)]; [by left|right].
  by exists i, ts.
Qed.

(** X7.  No association record ever holds a tag twice: every request
    keeps it so, hence it is so in every state reached from the empty
    database, whatever is sent. *)
Theorem tags_held_once_invariant :
  (∀ qs (w : world ObjectId),
     tags_held_once (db w) → tags_held_once (db (serve_all qs w)))
  ∧ (∀ qs, tags_held_once (db (serve_all qs init))).
Proof.
  assert (∀ q (w : world ObjectId),
            tags_held_once (db w) → tags_held_once (db (snd (serve q w))))
    as Hstep.
  { intros q w Hinv r' Hr'.
    destruct (serve_records q w) as (_ & _ & [Hsame|(i & ts & _ & _ & _ & Hup)]).
    - rewrite Hsame in Hr'. by apply Hinv.
    - destruct (update_one_records _ _ _ _ _ Hup Hr')
        as [?|(_ & old & -> & [->|(r & Hr & <-)])].
      + by apply Hinv.
      + apply NoDup_add_to_set, NoDup_nil_2.
      + apply NoDup_add_to_set. by apply Hinv. }
  split.
  - by apply run_invariant.
  - intros qs. apply run_invariant; [done|].
    intros r Hr. by apply elem_of_nil in Hr.
Qed.

(** X8.  Every association record is that of a stored item: every
    request keeps it so (the item is looked up before the upsert and no
    request removes an item), hence it is so in every state reached
    from the empty database. *)
Theorem records_of_stored_items_invariant :
  (∀ qs (w : world ObjectId),
     records_of_stored_items (db w) →
     records_of_stored_items (db (serve_all qs w)))
  ∧ (∀ qs, records_of_stored_items (db (serve_all qs init))).
Proof.
  assert (∀ q (w : world ObjectId),
            records_of_stored_items (db w) →
            records_of_stored_items (db (snd (serve q w)))) as Hstep.
  { intros q w Hinv r' Hr'.
    destruct (serve_records q w)
      as (Hitems & _ & [Hsame|(i & ts & Hi & _ & _ & Hup)]).
    - rewrite Hsame in Hr'. apply (item_exists_prefix _ _ _ Hitems).
      by apply Hinv.
    - apply (item_exists_prefix _ _ _ Hitems).
      destruct (update_one_records _ _ _ _ _ Hup Hr') as [?|[-> _]].
      + by apply Hinv.
      + done. }
  split.
  - by apply run_invariant.
  - intros qs. apply run_invariant; [done|].
    intros r Hr. by apply elem_of_nil in Hr.
Qed.

(** X9.  No association record is ever empty: [associate] refuses an
    empty [tag_ids] and nothing removes a tag from a record, so that
    every request keeps every record holding a tag; in every state
    reached from the empty database the test [not tag_map.get("tag_ids")]
    of [get_tags_for_item] is false for every record found. *)
Theorem records_hold_a_tag_invariant :
  (∀ qs (w : world ObjectId),
     records_hold_a_tag (db w) → records_hold_a_tag (db (serve_all qs w)))
  ∧ (∀ qs, records_hold_a_tag (db (serve_all qs init))).
Proof.
  assert (∀ q (w : world ObjectId),
            records_hold_a_tag (db w) →
            records_hold_a_tag (db (snd (serve q w)))) as Hstep.
  { intros q w Hinv r' Hr'.
    destruct (serve_records q w)
      as (_ & _ & [Hsame|(i & ts & _ & Hts & _ & Hup)]).
    - rewrite Hsame in Hr'. by apply Hinv.
    - destruct (update_one_records _ _ _ _ _ Hup Hr')
        as [?|(_ & old & -> & _)].
      + by apply Hinv.
      + by apply add_to_set_not_nil. }
  split.
  - by apply run_invariant.
  - intros qs. apply run_invariant; [done|].
    intros r Hr. by apply elem_of_nil in Hr.
Qed.

(** ** Reading back *)

(** A successful [associate], with the item, the tags and the upsert
    behind it; the tags are at least one. *)
Lemma associate_done id data (w : world ObjectId) r w' :
  associate id data w = (Ok r, w') → snd r = 200 →
  ∃ i ts,
    ObjectId_of (VStr id) = Some i
    ∧ r = Associated str id ts
    ∧ ts ≠ []
    ∧ NoDup ts
    ∧ item_exists i (db w)
    ∧ (∀ t, t ∈ ts → tag_exists t (db w))
    ∧ items (db w') = items (db w)
    ∧ tags (db w') = tags (db w)
    ∧ associated i (db w') = add_to_set (associated i (db w)) ts
    ∧ (∀ j, j ≠ i → associated j (db w') = associated j (db w))
    ∧ item_id <$> item_tags (db w')
      = (item_id <$> item_tags (db w))
        ++ (if decide (i ∈ item_id <$> item_tags (db w)) then [] else [i]).
Proof.
  intros Hrun Hs.
  destruct (associate_success _ _ _ _ _ _ _ _ Hrun Hs)
    as (d & i & ts & -> & Hok & Hp & Hi & Hnd & Hall & -> & Hup).
  destruct (update_one_item_tags_spec new_ObjectId i ts
              (noted (Find Tags) (noted (FindOne Items) w)))
    as (w'' & Hw'' & Hitems & Htags & _ & Hassoc & Hoth & _ & Hids & _).
  rewrite Hup in Hw''. injection Hw'' as <-.
  apply parse_ids_Some in Hp as [Hpi Hts].
  exists i, ts. split_and!; try done.
  apply mapM_Some in Hts. intros ->. apply Forall2_nil_inv_r in Hts.
  by apply good_entries in Hok.
Qed.

(** X10.  What [associate] stores, [tagsFor] gives back: after a
    successful [associate], [tagsFor] for the same [item_id] answers 200
    with a list that holds, for every tag named in the request, the
    stored document of that tag with its [_id] as a string. *)
Theorem associated_tags_are_served item_id data (w : world ObjectId) r w' :
  associate item_id data w = (Ok r, w') → snd r = 200 →
  ∃ ts answer,
    r = Associated str item_id ts
    ∧ fst (tagsFor item_id w') = Ok (VList answer, 200)
    ∧ ∀ t, t ∈ ts →
           ∃ d, d ∈ tags (db w') ∧ doc_id d = VOid t
                ∧ externalized str d ∈ answer.
Proof.
  intros Hrun Hs.
  destruct (associate_done _ _ _ _ _ Hrun Hs)
    as (i & ts & Hi & -> & Hne & _ & _ & Hall & _ & Htags & Hassoc & _).
  exists ts. eexists. split; [done|].
  rewrite (tagsFor_answer ObjectId_of str item_id i w' Hi).
  rewrite decide_False.
  2: { rewrite Hassoc. by apply add_to_set_not_nil. }
  split; [done|]. intros t Ht.
  pose proof (Hall t Ht) as Hex. unfold tag_exists in Hex.
  apply list_elem_of_fmap in Hex as (d & Heq & Hd). symmetry in Heq.
  exists d. rewrite Htags. split_and!; try done.
  apply list_elem_of_fmap_2, list_elem_of_filter. split; [|done].
  apply doc_oid_among. exists t. split; [|done].
  rewrite Hassoc. apply elem_of_add_to_set. by right.
Qed.

(** X11.  [tagsFor] never raises and never answers 404: its answer is
    "Invalid item_id" (400) or a list with status 200, and that list is
    taken from the tags in the order in which they are stored, each at
    most once, whatever the order in which they were associated. *)
Theorem tags_for_item_answers item_id (w : world ObjectId) :
  ∃ r, fst (tagsFor item_id w) = Ok r
       ∧ (r = InvalidItemId
          ∨ ∃ answer, r = (VList answer, 200)
                      ∧ answer `sublist_of` externalized str <$> tags (db w)).
Proof.
  destruct (tagsFor_cases item_id w)
    as [[_ ->]|[(i & _ & _ & ->)|(i & _ & _ & ->)]]; cbn [fst];
    eexists; (split; [done|]).
  - by left.
  - right. eexists. split; [done|]. apply sublist_nil_l.
  - right. eexists. split; [done|]. apply fmap_sublist, sublist_filter.
Qed.

(** X12.  [tagsFor] does not look the item up: where every association
    record is that of a stored item (as in every state reached from the
    empty database), a well-formed identifier of no stored item gets the
    empty list with status 200, not an error. *)
Theorem unknown_item_has_no_tags item_id i (w : world ObjectId) :
  records_of_stored_items (db w) →
  ObjectId_of (VStr item_id) = Some i →
  ¬ item_exists i (db w) →
  tagsFor item_id w = (Ok (VList [], 200), noted FindOneItemTags w).
Proof.
  intros Hinv Hi Hno.
  assert (associated i (db w) = []) as Hnone.
  { unfold associated.
    destruct (lookup_item_tags i (item_tags (db w))) as [rec|] eqn:Hl; [|done].
    apply (lookup_item_tags_Some) in Hl as [Hrec <-].
    destruct Hno. by apply Hinv. }
  destruct (tagsFor_cases item_id w)
    as [[Hbad _]|[(i' & Hi' & _ & ->)|(i' & Hi' & Hsome & _)]].
  - congruence.
  - done.
  - assert (i' = i) as -> by congruence. done.
Qed.

(** ** Nothing is taken away *)

Lemma serve_keeps q (w : world ObjectId) :
  let w' := snd (serve q w) in
  items (db w) `prefix_of` items (db w')
  ∧ tags (db w) `prefix_of` tags (db w')
  ∧ (item_id <$> item_tags (db w)) `prefix_of` (item_id <$> item_tags (db w'))
  ∧ ∀ i, associated i (db w) `prefix_of` associated i (db w').
Proof.
  cbv zeta.
  pose proof (handle_effect ObjectId_of str new_ObjectId bson_error write_error q w)
    as (Hitems & Htags & Hsame).
  split_and!; [done|done| |].
  - destruct q as [|data| |data| |item_id data|item_id];
      try (by rewrite Hsame).
    cbn [handle].
    destruct (associate_writes item_id data w)
      as [->|(i & ts & _ & _ & _ & _ & Hup)]; [done|].
    destruct (update_one_item_tags_spec new_ObjectId i ts
                (noted (Find Tags) (noted (FindOne Items) w)))
      as (w'' & Hw'' & _ & _ & _ & _ & _ & _ & Hids & _).
    rewrite Hup in Hw''. injection Hw'' as <-. rewrite Hids.
    by apply prefix_app_r.
  - intros j.
    destruct q as [|data| |data| |item_id data|item_id];
      try (unfold associated; by rewrite Hsame).
    cbn [handle].
    destruct (associate_writes item_id data w)
      as [->|(i & ts & _ & _ & _ & _ & Hup)]; [done|].
    destruct (update_one_item_tags_spec new_ObjectId i ts
                (noted (Find Tags) (noted (FindOne Items) w)))
      as (w'' & Hw'' & _ & _ & _ & Hassoc & Hoth & _).
    rewrite Hup in Hw''. injection Hw'' as <-.
    destruct (decide (j = i)) as [->|Hne]; [|by rewrite Hoth].
    rewrite Hassoc. cbn [noted db].
    destruct (add_to_set_extends ts (associated i (db w))) as [k ->].
    by apply prefix_app_r.
Qed.

(** X13.  No sequence of requests takes anything away: the items, the
    tags, the items that have an association record and the tags
    associated to each item are, after the requests, what they were
    before followed by what was added. *)
Theorem nothing_is_taken_away qs (w : world ObjectId) :
  let w' := serve_all qs w in
  items (db w) `prefix_of` items (db w')
  ∧ tags (db w) `prefix_of` tags (db w')
  ∧ (item_id <$> item_tags (db w)) `prefix_of` (item_id <$> item_tags (db w'))
  ∧ ∀ i, associated i (db w) `prefix_of` associated i (db w').
Proof.
  cbv zeta. revert w. induction qs as [|q qs IH]; intros w; [done|].
  rewrite run_cons.
  destruct (serve_keeps q w) as (Hi & Ht & Hr & Ha).
  destruct (IH (snd (serve q w))) as (Hi' & Ht' & Hr' & Ha').
  split_and!; try (by etrans).
  intros i. etrans; [apply Ha|apply Ha'].
Qed.

(** ** How calls of [associate] compose *)

Lemma add_to_set_app (l n1 n2 : list ObjectId) :
  add_to_set l (n1 ++ n2) = add_to_set (add_to_set l n1) n2.
Proof. unfold add_to_set. apply fold_left_app. Qed.

Lemma update_first_app oid n1 n2 (l l1 : list (item_tag ObjectId)) :
  update_first oid n1 l = Some l1 →
  update_first oid n2 l1 = update_first oid (n1 ++ n2) l.
Proof.
  revert l1. induction l as [|r l IH]; intros l1; [done|].
  cbn [update_first]. destruct (decide (item_id r = oid)) as [Heq|Hne].
  - intros [= <-]. cbn [update_first item_id it_id tag_ids].
    by rewrite decide_True, add_to_set_app by done.
  - destruct (update_first oid n1 l) as [k|] eqn:Hk; [|done].
    intros [= <-]. cbn [update_first]. rewrite decide_False by done.
    by rewrite (IH k eq_refl).
Qed.

Lemma update_first_after_insert oid n2 fresh old
  (l : list (item_tag ObjectId)) :
  lookup_item_tags oid l = None →
  update_first oid n2 (l ++ [ItemTag fresh oid old])
  = Some (l ++ [ItemTag fresh oid (add_to_set old n2)]).
Proof.
  induction l as [|r l IH].
  - intros _. cbn [app update_first item_id it_id tag_ids].
    by rewrite decide_True by done.
  - rewrite lookup_item_tags_cons. cbn [app update_first].
    destruct (decide (item_id r = oid)); [done|].
    intros Hn. by rewrite (IH Hn).
Qed.

(** Two upserts for an item, one after the other, leave what one upsert
    of the two lists leaves. *)
Lemma update_one_item_tags_app oid n1 n2 (wa w1 wb : world ObjectId) :
  update_one_item_tags new_ObjectId oid n1 wa = (Ok tt, w1) →
  db wb = db w1 →
  generated wb = generated w1 →
  db (snd (update_one_item_tags new_ObjectId oid n2 wb))
  = db (snd (update_one_item_tags new_ObjectId oid (n1 ++ n2) wa))
  ∧ generated (snd (update_one_item_tags new_ObjectId oid n2 wb))
    = generated (snd (update_one_item_tags new_ObjectId oid (n1 ++ n2) wa)).
Proof.
  unfold update_one_item_tags. intros Hw Hdb Hgen.
  destruct (update_first oid n1 (item_tags (db wa))) as [l1|] eqn:Hup.
  - injection Hw as <-. rewrite Hdb, Hgen. cbn [db item_tags items tags generated].
    rewrite (update_first_app _ _ n2 _ _ Hup).
    destruct (update_first_Some _ _ _ _ Hup) as (r & Hl & _).
    destruct (update_first oid (n1 ++ n2) (item_tags (db wa))) as [l2|] eqn:Hup2.
    + done.
    + apply update_first_None in Hup2. congruence.
  - injection Hw as <-. rewrite Hdb, Hgen. cbn [db item_tags items tags generated].
    pose proof Hup as Hnone. apply update_first_None in Hnone.
    rewrite (update_first_after_insert _ n2 _ _ _ Hnone).
    assert (update_first oid (n1 ++ n2) (item_tags (db wa)) = None) as ->
      by by apply update_first_None.
    cbn [snd db generated]. by rewrite add_to_set_app.
Qed.

(** X14.  One request for several tags stores what two requests store
    that split its list: if [associate] succeeds for a list of tags, it
    succeeds for a first part of the list and then for the rest, and the
    database after the two calls is the database after the one. *)
Theorem batch_is_sequence id x la y lb (w : world ObjectId) r w' :
  associate id (tag_ids_of ((x :: la) ++ (y :: lb))) w = (Ok r, w') →
  snd r = 200 →
  ∃ r1 w1 r2 w2,
    associate id (tag_ids_of (x :: la)) w = (Ok r1, w1)
    ∧ snd r1 = 200
    ∧ associate id (tag_ids_of (y :: lb)) w1 = (Ok r2, w2)
    ∧ snd r2 = 200
    ∧ db w2 = db w'.
Proof.
  intros Hrun Hs. unfold tag_ids_of in *.
  destruct (associate_success _ _ _ _ _ _ _ _ Hrun Hs)
    as (d & i & ts & [= <-] & Hok & Hp & Hi & Hnd & Hall & -> & Hup).
  apply parse_ids_Some in Hp as [Hpi Hts]. rewrite entries_tag_ids in Hts.
  apply mapM_Some in Hts.
  change (x :: la ++ y :: lb) with ((x :: la) ++ (y :: lb)) in Hts.
  apply Forall2_app_inv_l in Hts as (tsa & tsb & Hta & Htb & ->).
  apply NoDup_app in Hnd as (Hnda & _ & Hndb).
  destruct (associate_succeeds ObjectId_of str new_ObjectId id
              [("tag_ids", VList (x :: la))] w i tsa) as (w1 & Hrun1 & Hup1).
  { apply tag_ids_of_good. }
  { apply parse_ids_Some. rewrite entries_tag_ids. split; [done|].
    by apply mapM_Some. }
  { done. }
  { done. }
  { intros t Ht. apply Hall, elem_of_app. by left. }
  destruct (update_one_item_tags_spec new_ObjectId i tsa
              (noted (Find Tags) (noted (FindOne Items) w)))
    as (w1' & Hw1' & Hitems1 & Htags1 & _).
  rewrite Hup1 in Hw1'. injection Hw1' as <-.
  destruct (associate_succeeds ObjectId_of str new_ObjectId id
              [("tag_ids", VList (y :: lb))] w1 i tsb) as (w2 & Hrun2 & Hup2).
  { apply tag_ids_of_good. }
  { apply parse_ids_Some. rewrite entries_tag_ids. split; [done|].
    by apply mapM_Some. }
  { unfold item_exists. by rewrite Hitems1. }
  { done. }
  { intros t Ht. unfold tag_exists. rewrite Htags1.
    apply Hall, elem_of_app. by right. }
  exists (Associated str id tsa), w1, (Associated str id tsb), w2.
  split_and!; try done.
  destruct (update_one_item_tags_app i tsa tsb
              (noted (Find Tags) (noted (FindOne Items) w)) w1
              (noted (Find Tags) (noted (FindOne Items) w1)) Hup1 eq_refl eq_refl)
    as [Hdb _].
  by rewrite Hup2, Hup in Hdb.
Qed.

(** A request that passes every check, with what it leaves. *)
Lemma associate_with id d (w : world ObjectId) i ts :
  ¬ bad_tag_ids d →
  parse_ids ObjectId_of id (entries d) = Some (i, ts) →
  item_exists i (db w) →
  NoDup ts →
  (∀ t, t ∈ ts → tag_exists t (db w)) →
  ∃ w', associate id (VDict d) w = (Ok (Associated str id ts), w')
        ∧ items (db w') = items (db w)
        ∧ tags (db w') = tags (db w)
        ∧ associated i (db w') = add_to_set (associated i (db w)) ts
        ∧ (∀ j, j ≠ i → associated j (db w') = associated j (db w)).
Proof.
  intros Hok Hp Hi Hnd Hall.
  destruct (associate_succeeds ObjectId_of str new_ObjectId id d w i ts)
    as (w' & Hrun & Hup); try done.
  destruct (update_one_item_tags_spec new_ObjectId i ts
              (noted (Find Tags) (noted (FindOne Items) w)))
    as (w'' & Hw'' & Hitems & Htags & _ & Hassoc & Hoth & _).
  rewrite Hup in Hw''. injection Hw'' as <-.
  by exists w'.
Qed.

(** X15.  The order of two associations for an item is not seen
    afterwards: if two requests for the same item succeed one after the
    other, they succeed in the other order too, with the same answers;
    every item has the same tags associated either way, as sets, and
    [tagsFor] answers the same for the item. *)
Theorem association_order_is_not_seen id da db' (w : world ObjectId)
  ra w1 rb w2 :
  associate id da w = (Ok ra, w1) → snd ra = 200 →
  associate id db' w1 = (Ok rb, w2) → snd rb = 200 →
  ∃ w1' w2',
    associate id db' w = (Ok rb, w1')
    ∧ associate id da w1' = (Ok ra, w2')
    ∧ (∀ j t, t ∈ associated j (db w2') ↔ t ∈ associated j (db w2))
    ∧ fst (tagsFor id w2') = fst (tagsFor id w2).
Proof.
  intros Hrun1 Hs1 Hrun2 Hs2.
  destruct (associate_success _ _ _ _ _ _ _ _ Hrun1 Hs1)
    as (d1 & i & ts1 & -> & Hok1 & Hp1 & Hi1 & Hnd1 & Hall1 & -> & _).
  destruct (associate_with id d1 w i ts1)
    as (w1a & Hrun1a & Hitems1 & Htags1 & Hassoc1 & Hoth1); try done.
  rewrite Hrun1 in Hrun1a. injection Hrun1a as <-.
  destruct (associate_success _ _ _ _ _ _ _ _ Hrun2 Hs2)
    as (d2 & i2 & ts2 & -> & Hok2 & Hp2 & Hi2 & Hnd2 & Hall2 & -> & _).
  pose proof Hp1 as [Hq1 Hm1]%parse_ids_Some.
  pose proof Hp2 as [Hq2 Hm2]%parse_ids_Some.
  assert (i2 = i) as -> by congruence.
  destruct (associate_with id d2 w1 i ts2)
    as (w2a & Hrun2a & Hitems2 & Htags2 & Hassoc2 & Hoth2); try done.
  rewrite Hrun2 in Hrun2a. injection Hrun2a as <-.
  destruct (associate_with id d2 w i ts2)
    as (w1' & Hrun1' & Hitems1' & Htags1' & Hassoc1' & Hoth1'); try done.
  { intros t Ht. unfold tag_exists. rewrite <- Htags1. by apply Hall2. }
  destruct (associate_with id d1 w1' i ts1)
    as (w2' & Hrun2' & Hitems2' & Htags2' & Hassoc2' & Hoth2'); try done.
  { unfold item_exists. by rewrite Hitems1'. }
  { intros t Ht. unfold tag_exists. rewrite Htags1'. by apply Hall1. }
  assert (∀ j t, t ∈ associated j (db w2') ↔ t ∈ associated j (db w2))
    as Hsets.
  { intros j t. destruct (decide (j = i)) as [->|Hne].
    - rewrite Hassoc2', Hassoc1', Hassoc2, Hassoc1.
      rewrite !elem_of_add_to_set. tauto.
    - by rewrite Hoth2', Hoth1', Hoth2, Hoth1. }
  assert (ts1 ≠ []) as Hne1.
  { apply mapM_Some in Hm1. intros ->. apply Forall2_nil_inv_r in Hm1.
    by apply good_entries in Hok1. }
  exists w1', w2'. split_and!; try done.
  rewrite (tagsFor_answer ObjectId_of str id i w2' Hq1).
  rewrite (tagsFor_answer ObjectId_of str id i w2 Hq1).
  rewrite !decide_False.
  - rewrite Htags2', Htags1', Htags2, Htags1.
    assert (filter (fun d => doc_oid d ∈ Some <$> associated i (db w2'))
              (tags (db w))
            = filter (fun d => doc_oid d ∈ Some <$> associated i (db w2))
                (tags (db w)))
      as Hsame.
    { apply list_filter_iff. intros d. rewrite !doc_oid_among.
      split; intros (t & Ht & Heq); exists t; (split; [|done]);
        by apply Hsets. }
    by rewrite Hsame.
  - rewrite Hassoc2, Hassoc1. intros Hnil.
    assert (∃ t, t ∈ ts1) as [t Ht]
      by (destruct ts1 as [|t ?]; [done|exists t; by left]).
    assert (t ∈ add_to_set (add_to_set (associated i (db w)) ts1) ts2) as Hin.
    { apply elem_of_add_to_set. left.
      apply elem_of_add_to_set. by right. }
    rewrite Hnil in Hin. by apply elem_of_nil in Hin.
  - rewrite Hassoc2'. by apply add_to_set_not_nil.
Qed.

End More.

(** * The further properties on the reference instance *)

(** A pen that comes with its own [_id] is listed under it, after the
    book. *)
Lemma created_item_is_listed_witness :
  fst (Reference.create_item pen shop)
  = Ok (VDict [("inserted_id", VStr "pen")], 201)
  ∧ fst (Reference.list_items (snd (Reference.create_item pen shop)))
    = Ok (VList [VDict [("_id", VStr book_id); ("item_title", VStr "Book");
                        ("item_type", VStr "physical")];
                 VDict [("_id", VStr "pen"); ("item_title", VStr "Pen")]],
          200).
Proof.
  destruct (created_item_is_listed Reference.str Reference.new_ObjectId
              Reference.bson_error Reference.write_error
              ("_id", VStr "pen") [("item_title", VStr "Pen")] shop)
    as (before & Hbefore & Hstored & _).
  destruct Hstored as [Hanswer Hlisted]; [reflexivity|reflexivity|].
  split; [exact Hanswer|].
  unfold Reference.list_items, Reference.create_item, pen. rewrite Hlisted.
  vm_compute in Hbefore. injection Hbefore as <-. reflexivity.
Defined.

(** A tag sent a second time with the [_id] it came with is refused, and
    the listing stays as it was. *)
Lemma created_tag_is_listed_witness :
  (∃ e, fst (Reference.create_tag drama staged) = Raise e)
  ∧ fst (Reference.list_tags (snd (Reference.create_tag drama staged)))
    = Ok (VList [VDict [("_id", VOid 1%N); ("name", VStr "fiction")];
                 VDict [("_id", VOid 2%N); ("name", VStr "poetry")];
                 VDict [("_id", VStr "drama"); ("name", VStr "drama")]],
          200).
Proof.
  destruct (created_tag_is_listed Reference.str Reference.new_ObjectId
              Reference.bson_error Reference.write_error
              ("_id", VStr "drama") [("name", VStr "drama")] staged)
    as (before & Hbefore & _ & Hrefused).
  destruct Hrefused as [Hraised Hlisted].
  { intros [_ Hfree]. vm_compute in Hfree. discriminate Hfree. }
  split; [exact Hraised|].
  unfold Reference.list_tags, Reference.create_tag, drama. rewrite Hlisted.
  vm_compute in Hbefore. injection Hbefore as <-. reflexivity.
Defined.

(** The same tag, refused by the server: the database is as it was, and
    the server was called once. *)
Lemma failed_request_leaves_no_trace_witness :
  fst (Reference.handle (POST_tags drama) staged) = Raise DuplicateKeyError
  ∧ db (snd (Reference.handle (POST_tags drama) staged)) = db staged
  ∧ calls_between staged (snd (Reference.handle (POST_tags drama) staged))
      [InsertOne Tags].
Proof.
  destruct (failed_request_leaves_no_trace Reference.ObjectId_of Reference.str
              Reference.new_ObjectId Reference.bson_error Reference.write_error
              (POST_tags drama) staged) as (_ & Hraised).
  destruct (Hraised DuplicateKeyError) as [Hdb Hcalls]; [reflexivity|].
  split; [reflexivity|]. split; [exact Hdb|]. vm_compute. reflexivity.
Defined.

(** The tag "fiction" associated to the book is served for the book. *)
Lemma associated_tags_are_served_witness :
  ∃ ts answer,
    Associated Reference.str book_id [1%N] = Associated Reference.str book_id ts
    ∧ fst (Reference.tagsFor book_id tagged) = Ok (VList answer, 200)
    ∧ ∀ t, t ∈ ts →
           ∃ d, d ∈ tags (db tagged) ∧ doc_id d = VOid t
                ∧ externalized Reference.str d ∈ answer.
Proof.
  apply (associated_tags_are_served Reference.ObjectId_of Reference.str
           Reference.new_ObjectId book_id (tag_ids_of [VStr fiction_id]) shop).
  - vm_compute. reflexivity.
  - reflexivity.
Defined.

(** The identifier of the tag "poetry" is that of no item: asked for its
    tags, the service answers with the empty list. *)
Lemma unknown_item_has_no_tags_witness :
  Reference.tagsFor poetry_id tagged
  = (Ok (VList [], 200), noted FindOneItemTags tagged).
Proof.
  apply (unknown_item_has_no_tags Reference.ObjectId_of Reference.str
           poetry_id 2%N tagged).
  - intros r Hr. vm_compute in Hr.
    apply list_elem_of_singleton in Hr as ->. vm_compute. repeat constructor.
  - vm_compute. reflexivity.
  - vm_compute. intros Hin.
    repeat (apply elem_of_cons in Hin as [Hin|Hin]; [discriminate Hin|]).
    by apply elem_of_nil in Hin.
Defined.

(** "fiction" and "poetry" in one request, and in two. *)
Lemma batch_is_sequence_witness :
  ∃ r1 w1 r2 w2,
    Reference.associate book_id (tag_ids_of [VStr fiction_id]) shop = (Ok r1, w1)
    ∧ snd r1 = 200
    ∧ Reference.associate book_id (tag_ids_of [VStr poetry_id]) w1 = (Ok r2, w2)
    ∧ snd r2 = 200
    ∧ db w2
      = db (snd (Reference.associate book_id
                   (tag_ids_of [VStr fiction_id; VStr poetry_id]) shop)).
Proof.
  apply (batch_is_sequence Reference.ObjectId_of Reference.str
           Reference.new_ObjectId book_id (VStr fiction_id) []
           (VStr poetry_id) [] shop
           (Associated Reference.str book_id [1%N; 2%N])).
  - vm_compute. reflexivity.
  - reflexivity.
Defined.

(** "fiction" then "poetry", and "poetry" then "fiction". *)
Lemma association_order_is_not_seen_witness :
  ∃ w1' w2',
    Reference.associate book_id (tag_ids_of [VStr poetry_id]) shop
    = (Ok (Associated Reference.str book_id [2%N]), w1')
    ∧ Reference.associate book_id (tag_ids_of [VStr fiction_id]) w1'
      = (Ok (Associated Reference.str book_id [1%N]), w2')
    ∧ (∀ j t, t ∈ associated j (db w2')
              ↔ t ∈ associated j
                      (db (snd (Reference.associate book_id
                                  (tag_ids_of [VStr poetry_id]) tagged))))
    ∧ fst (Reference.tagsFor book_id w2')
      = fst (Reference.tagsFor book_id
               (snd (Reference.associate book_id
                       (tag_ids_of [VStr poetry_id]) tagged))).
Proof.
  apply (association_order_is_not_seen Reference.ObjectId_of Reference.str
           Reference.new_ObjectId book_id (tag_ids_of [VStr fiction_id])
           (tag_ids_of [VStr poetry_id]) shop
           (Associated Reference.str book_id [1%N]) tagged).
  - vm_compute. reflexivity.
  - reflexivity.
  - vm_compute. reflexivity.
  - reflexivity.
Defined.
